(** * Bootstrap layer of the evans gRPC client: packages [di] and [usecase]

    A shallow embedding of [di/dependency.go] and of
    [usecase.InteractorParams.Cleanup], together with the properties of the
    lazy registries, the initialisation orchestrator and the proto path
    resolver.

    Conventions of the embedding.
    - A Go [error] value is an [option error]; [None] is [nil].
    - A Go interface or pointer that may be [nil] is an [option].
    - Package-level variables live in one record, [State]; every function of
      the package is a state transformer that can also panic.
    - The initializer that [initer] points to is a value held in [State]; a
      method on it runs on that value together with the state, and what it
      writes to its receiver stays written when it panics.
    - The packages the code imports (shellwords, grpc, protobuf, env,
      inputter, presenter) are collaborators: their types and functions are
      the fields of the class [Collaborators]. *)

From Stdlib Require Import Ascii.
From stdpp Require Import base option list gmap strings pretty.

Set Warnings "-clear-no-such-hyp".


(** ** Errors *)

(** [errors.New], [errors.Wrap]/[errors.Wrapf] of github.com/pkg/errors, and
    the errors that come out of a collaborator. *)
Inductive error : Type :=
  | ErrNew (msg : string)
  | ErrWrap (cause : error) (msg : string)
  | ErrExt (origin : string).

#[global] Instance error_eq_dec : EqDecision error.
Proof. solve_decision. Defined.

(** A fallible result [(v, err)] where exactly one side is meaningful. *)
Inductive res (A : Type) : Type :=
  | Ok (a : A)
  | Err (e : error).
Arguments Ok {A} a.
Arguments Err {A} e.

(** ** Configuration (the fields of [config.Config] the package reads) *)

Module config.
Record Header := { Key : string; Val : string }.
Record DefaultT := {
  ProtoPath : list string;
  ProtoFile : list string;
  Package : string;
  Service : string }.
Record ServerT := { Host : string; Port : string; Reflection : bool }.
Record RequestT := { Header_ : list Header; Web : bool }.
Record InputT := { PromptFormat : string }.
Record Config := {
  Default : DefaultT;
  Server : ServerT;
  Request : RequestT;
  Input : InputT }.
End config.

Module entity.
Record Header := { Key : string; Val : string }.
End entity.

(** ** Collaborators *)

Class Collaborators := {
  (* opaque handles *)
  entity_GRPCClient : Type;
  entity_Service : Type;
  entity_Message : Type;
  environment_Environment : Type;
  protobuf_FileDesc : Type;
  protobuf_DynamicBuilder : Type;
  presenter_JSONPresenter : Type;
  inputter_JSONFile : Type;
  inputter_PromptInputter : Type;
  port_OutputPort : Type;
  port_Inputter : Type;
  io_Reader : Type;
  context_Context : Type;
  context_Background : context_Context;
  (* shellwords: [Parser.Parse] with [ParseEnv = true]; the process
     environment is fixed for the run *)
  shellwords_Parse : string → res (list string);
  (* protobuf *)
  protobuf_ParseFile : list string → list string → res protobuf_FileDesc;
  protobuf_NewDynamicBuilder : protobuf_DynamicBuilder;
  (* grpc *)
  grpc_NewClient : string → bool → option entity_GRPCClient * option error;
  grpc_NewWebClient :
    string → bool → option protobuf_DynamicBuilder → entity_GRPCClient;
  ReflectionEnabled : entity_GRPCClient → bool;
  ListServices :
    entity_GRPCClient → res (list entity_Service * list entity_Message);
  Close : entity_GRPCClient → context_Context → option error;
  (* env *)
  environment_New :
    protobuf_FileDesc → list entity.Header → environment_Environment;
  environment_NewFromServices :
    list entity_Service → list entity_Message → list entity.Header →
    environment_Environment;
  UsePackage :
    environment_Environment → string → environment_Environment * option error;
  UseService :
    environment_Environment → string → environment_Environment * option error;
  (* inputter, presenter *)
  inputter_NewJSONFile : io_Reader → inputter_JSONFile;
  inputter_NewPrompt :
    string → option environment_Environment → inputter_PromptInputter;
  presenter_NewJSONWithIndent : presenter_JSONPresenter;
}.

(** ** Computations: state passing with panics *)

(** A call either returns or panics (a method call through a nil interface);
    the state it leaves behind is kept in both cases. *)
Inductive outcome (A : Type) : Type :=
  | Ret (a : A)
  | Panic.
Arguments Ret {A} a.
Arguments Panic {A}.

Definition M (S A : Type) : Type := S → S * outcome A.

#[global] Instance M_ret {S} : MRet (M S) := λ A a s, (s, Ret a).

#[global] Instance M_bind {S} : MBind (M S) := λ A B k m s,
  match m s with
  | (s', Ret a) => k a s'
  | (s', Panic) => (s', Panic)
  end.

Definition panic {S A} : M S A := λ s, (s, Panic).

Definition gets {S A} (proj : S → A) : M S A := λ s, (s, Ret (proj s)).

Definition modify {S} (upd : S → S) : M S unit := λ s, (upd s, Ret tt).

(** [sync.Once.Do] as seen by one goroutine at a time. The closure passed to
    [Do] assigns variables of the enclosing function; [body] returns their
    final values and [zero] is what they hold when the closure does not run.
    The flag is set when the closure ends, also when it ends in a panic. *)
Definition Once_Do {S A} (done : S → bool) (set_done : bool → S → S)
    (zero : A) (body : M S A) : M S A :=
  λ s, if done s then (s, Ret zero)
       else match body s with
            | (s', o) => (set_done true s', o)
            end.

(** ** Aggregate error *)

(** Modelled from the spec: the aggregate error (github.com/hashicorp/go-multierror
    is not among the sources). An ordered collection of underlying errors;
    [Append] adds one error at the end, creating the collection when the
    accumulator is still nil. Collaborators are taken not to return aggregate
    errors themselves, so nothing is flattened. *)
Module multierror.
Definition Error : Type := list error.
Definition Append (err : option Error) (e : error) : Error :=
  match err with
  | None => [e]
  | Some errs => errs ++ [e]
  end.
End multierror.

(** ** Initialisation orchestrator *)

Module initializer.
Record t (F : Type) : Type := mk {
  f : list F;
  resultCache : option multierror.Error;
  done : bool }.
Arguments mk {F} f resultCache done.
Arguments f {F} _.
Arguments resultCache {F} _.
Arguments done {F} _.

Definition register {F} (i : t F) (fs : list F) : t F :=
  mk (f i ++ fs) (resultCache i) (done i).

Section Init.
Context {S F : Type} (call : F → M S (option error)).

(** The [for] loop of [init]; [result] is the local it accumulates into. *)
Fixpoint init_loop (fs : list F) (result : option multierror.Error)
    : M S (option multierror.Error) :=
  match fs with
  | [] => mret result
  | fn :: fs' =>
      err ← call fn;
      match err with
      | Some err => init_loop fs' (Some (multierror.Append result err))
      | None => init_loop fs' result
      end
  end.

(** The registered functions are called on the state of the program; the
    method [init] works on that state together with the initializer its
    receiver points to. *)
Definition on_state {A} (m : M S A) : M (t F * S) A :=
  λ st, match m st.2 with
        | (s', o) => ((st.1, s'), o)
        end.

(** [init] on the receiver held in the first component. The flag [done] is
    written before the loop, so it stays written when a registered function
    panics. *)
Definition init : M (t F * S) (option multierror.Error) :=
  i ← gets fst;
  if done i then mret (resultCache i)
  else
    modify (λ st, (mk (f st.1) (resultCache st.1) true, st.2));;
    fs ← gets (λ st, f st.1);
    on_state (init_loop fs None).
End Init.

(** *** What a first run is meant to do *)

(** [runs_in_order call fs s outs s']: starting in [s], every function of
    [fs] is called once, in the order of the list, each one in the state the
    one before left; [outs] lists what they returned and [s'] is the state
    after the last one. An error returned by one of them stops nothing. *)
Inductive runs_in_order {S F : Type} (call : F → M S (option error))
    : list F → S → list (option error) → S → Prop :=
  | runs_nil (s : S) : runs_in_order call [] s [] s
  | runs_cons (fn : F) (fs : list F) (s s1 s2 : S)
      (o : option error) (os : list (option error)) :
      call fn s = (s1, Ret o) →
      runs_in_order call fs s1 os s2 →
      runs_in_order call (fn :: fs) s (o :: os) s2.

(** The errors among the returned values, in their order. *)
Definition errors_of (outs : list (option error)) : list error :=
  omap id outs.

(** No error is a nil result; otherwise the errors form one aggregate. *)
Definition aggregate (errs : list error) : option multierror.Error :=
  match errs with
  | [] => None
  | _ :: _ => Some errs
  end.
End initializer.

(** ** Package [di] *)

Module di.
Section Di.
Context `{Collaborators}.

(** *** Path resolver *)

Definition ambiguous_path : error := ErrNew "failed to parse proto path".

(** The closure [parse] of [resolveProtoPaths]. *)
Definition parse (p : string) : res string :=
  match shellwords_Parse p with
  | Err err => Err err
  | Ok r =>
      if decide (1 < length r) then Err ambiguous_path
      else match r with
           | [] => Ok ""
           | r0 :: _ => Ok r0
           end
  end.

(** The [for] loop of [resolveProtoPaths]: [paths] and [encountered] are the
    two locals it updates. A key that is absent from a Go map reads as
    [false]. *)
Fixpoint resolveProtoPaths_loop (entries : list string) (paths : list string)
    (encountered : gmap string bool) : res (list string) :=
  match entries with
  | [] => Ok paths
  | p :: entries' =>
      match parse p with
      | Err err => Err err
      | Ok path =>
          if default false (encountered !! path) || bool_decide (path = "")
          then resolveProtoPaths_loop entries' paths encountered
          else resolveProtoPaths_loop entries' (paths ++ [path])
                 (<[path := true]> encountered)
      end
  end.

Definition resolveProtoPaths (cfg : config.Config) : res (list string) :=
  resolveProtoPaths_loop (config.ProtoPath (config.Default cfg)) [] ∅.

Fixpoint resolveProtoFiles_loop (entries files : list string) : list string :=
  match entries with
  | [] => files
  | fl :: entries' =>
      if bool_decide (fl ≠ "")
      then resolveProtoFiles_loop entries' (files ++ [fl])
      else resolveProtoFiles_loop entries' files
  end.

Definition resolveProtoFiles (conf : config.Config) : list string :=
  resolveProtoFiles_loop (config.ProtoFile (config.Default conf)) [].

(** *** What the resolver is meant to compute *)

(** Every entry resolved on its own, the first failure winning. *)
Fixpoint parse_all (entries : list string) : res (list string) :=
  match entries with
  | [] => Ok []
  | p :: entries' =>
      match parse p with
      | Err err => Err err
      | Ok path =>
          match parse_all entries' with
          | Err err => Err err
          | Ok paths => Ok (path :: paths)
          end
      end
  end.

(** Keep the first occurrence of every string that is not in [seen]. *)
Fixpoint dedup_from (seen l : list string) : list string :=
  match l with
  | [] => []
  | x :: l' =>
      if bool_decide (x ∈ seen) then dedup_from seen l'
      else x :: dedup_from (seen ++ [x]) l'
  end.

Definition dedup_first (l : list string) : list string := dedup_from [] l.

(** *** Package-level variables *)

(** The six lazily built components. *)
Inductive registry : Type :=
  | RegEnv
  | RegJSONCLIPresenter
  | RegJSONFileInputter
  | RegPromptInputter
  | RegGRPCClient
  | RegDynamicBuilder.

(** What the run leaves behind besides the variables: which constructor
    closures were entered and which clients were closed, oldest first. *)
Inductive Event : Type :=
  | EvConstruct (r : registry)
  | EvClose (c : entity_GRPCClient) (ctx : context_Context).

(** The function values registered in [initDependencies], one constructor per
    closure, with what each closure captures. *)
Inductive ctor : Type :=
  | fn_initJSONFileInputter (in_ : io_Reader)
  | fn_initPromptInputter (cfg : config.Config)
  | fn_initGRPCClient (cfg : config.Config)
  | fn_initEnv (cfg : config.Config)
  | fn_initJSONCLIPresenter
  | fn_initDynamicBuilder.

Record State : Type := mkState {
  env : option environment_Environment;
  envOnce : bool;
  jsonCLIPresenter : option presenter_JSONPresenter;
  jsonCLIPresenterOnce : bool;
  jsonFileInputter : option inputter_JSONFile;
  jsonFileInputterOnce : bool;
  promptInputter : option inputter_PromptInputter;
  promptInputterOnce : bool;
  gRPCClient : option entity_GRPCClient;
  gRPCClientOnce : bool;
  dynamicBuilder : option protobuf_DynamicBuilder;
  dynamicBuilderOnce : bool;
  initer : option (initializer.t ctor);
  initerOnce : bool;
  trace : list Event }.

Definition set_env (v : option environment_Environment) (s : State) : State :=
  mkState v (envOnce s) (jsonCLIPresenter s) (jsonCLIPresenterOnce s) (jsonFileInputter s) (jsonFileInputterOnce s) (promptInputter s) (promptInputterOnce s) (gRPCClient s) (gRPCClientOnce s) (dynamicBuilder s) (dynamicBuilderOnce s) (initer s) (initerOnce s) (trace s).

Definition set_envOnce (v : bool) (s : State) : State :=
  mkState (env s) v (jsonCLIPresenter s) (jsonCLIPresenterOnce s) (jsonFileInputter s) (jsonFileInputterOnce s) (promptInputter s) (promptInputterOnce s) (gRPCClient s) (gRPCClientOnce s) (dynamicBuilder s) (dynamicBuilderOnce s) (initer s) (initerOnce s) (trace s).

Definition set_jsonCLIPresenter (v : option presenter_JSONPresenter) (s : State) : State :=
  mkState (env s) (envOnce s) v (jsonCLIPresenterOnce s) (jsonFileInputter s) (jsonFileInputterOnce s) (promptInputter s) (promptInputterOnce s) (gRPCClient s) (gRPCClientOnce s) (dynamicBuilder s) (dynamicBuilderOnce s) (initer s) (initerOnce s) (trace s).

Definition set_jsonCLIPresenterOnce (v : bool) (s : State) : State :=
  mkState (env s) (envOnce s) (jsonCLIPresenter s) v (jsonFileInputter s) (jsonFileInputterOnce s) (promptInputter s) (promptInputterOnce s) (gRPCClient s) (gRPCClientOnce s) (dynamicBuilder s) (dynamicBuilderOnce s) (initer s) (initerOnce s) (trace s).

Definition set_jsonFileInputter (v : option inputter_JSONFile) (s : State) : State :=
  mkState (env s) (envOnce s) (jsonCLIPresenter s) (jsonCLIPresenterOnce s) v (jsonFileInputterOnce s) (promptInputter s) (promptInputterOnce s) (gRPCClient s) (gRPCClientOnce s) (dynamicBuilder s) (dynamicBuilderOnce s) (initer s) (initerOnce s) (trace s).

Definition set_jsonFileInputterOnce (v : bool) (s : State) : State :=
  mkState (env s) (envOnce s) (jsonCLIPresenter s) (jsonCLIPresenterOnce s) (jsonFileInputter s) v (promptInputter s) (promptInputterOnce s) (gRPCClient s) (gRPCClientOnce s) (dynamicBuilder s) (dynamicBuilderOnce s) (initer s) (initerOnce s) (trace s).

Definition set_promptInputter (v : option inputter_PromptInputter) (s : State) : State :=
  mkState (env s) (envOnce s) (jsonCLIPresenter s) (jsonCLIPresenterOnce s) (jsonFileInputter s) (jsonFileInputterOnce s) v (promptInputterOnce s) (gRPCClient s) (gRPCClientOnce s) (dynamicBuilder s) (dynamicBuilderOnce s) (initer s) (initerOnce s) (trace s).

Definition set_promptInputterOnce (v : bool) (s : State) : State :=
  mkState (env s) (envOnce s) (jsonCLIPresenter s) (jsonCLIPresenterOnce s) (jsonFileInputter s) (jsonFileInputterOnce s) (promptInputter s) v (gRPCClient s) (gRPCClientOnce s) (dynamicBuilder s) (dynamicBuilderOnce s) (initer s) (initerOnce s) (trace s).

Definition set_gRPCClient (v : option entity_GRPCClient) (s : State) : State :=
  mkState (env s) (envOnce s) (jsonCLIPresenter s) (jsonCLIPresenterOnce s) (jsonFileInputter s) (jsonFileInputterOnce s) (promptInputter s) (promptInputterOnce s) v (gRPCClientOnce s) (dynamicBuilder s) (dynamicBuilderOnce s) (initer s) (initerOnce s) (trace s).

Definition set_gRPCClientOnce (v : bool) (s : State) : State :=
  mkState (env s) (envOnce s) (jsonCLIPresenter s) (jsonCLIPresenterOnce s) (jsonFileInputter s) (jsonFileInputterOnce s) (promptInputter s) (promptInputterOnce s) (gRPCClient s) v (dynamicBuilder s) (dynamicBuilderOnce s) (initer s) (initerOnce s) (trace s).

Definition set_dynamicBuilder (v : option protobuf_DynamicBuilder) (s : State) : State :=
  mkState (env s) (envOnce s) (jsonCLIPresenter s) (jsonCLIPresenterOnce s) (jsonFileInputter s) (jsonFileInputterOnce s) (promptInputter s) (promptInputterOnce s) (gRPCClient s) (gRPCClientOnce s) v (dynamicBuilderOnce s) (initer s) (initerOnce s) (trace s).

Definition set_dynamicBuilderOnce (v : bool) (s : State) : State :=
  mkState (env s) (envOnce s) (jsonCLIPresenter s) (jsonCLIPresenterOnce s) (jsonFileInputter s) (jsonFileInputterOnce s) (promptInputter s) (promptInputterOnce s) (gRPCClient s) (gRPCClientOnce s) (dynamicBuilder s) v (initer s) (initerOnce s) (trace s).

Definition set_initer (v : option (initializer.t ctor)) (s : State) : State :=
  mkState (env s) (envOnce s) (jsonCLIPresenter s) (jsonCLIPresenterOnce s) (jsonFileInputter s) (jsonFileInputterOnce s) (promptInputter s) (promptInputterOnce s) (gRPCClient s) (gRPCClientOnce s) (dynamicBuilder s) (dynamicBuilderOnce s) v (initerOnce s) (trace s).

Definition set_initerOnce (v : bool) (s : State) : State :=
  mkState (env s) (envOnce s) (jsonCLIPresenter s) (jsonCLIPresenterOnce s) (jsonFileInputter s) (jsonFileInputterOnce s) (promptInputter s) (promptInputterOnce s) (gRPCClient s) (gRPCClientOnce s) (dynamicBuilder s) (dynamicBuilderOnce s) (initer s) v (trace s).

Definition set_trace (v : list Event) (s : State) : State :=
  mkState (env s) (envOnce s) (jsonCLIPresenter s) (jsonCLIPresenterOnce s) (jsonFileInputter s) (jsonFileInputterOnce s) (promptInputter s) (promptInputterOnce s) (gRPCClient s) (gRPCClientOnce s) (dynamicBuilder s) (dynamicBuilderOnce s) (initer s) (initerOnce s) v.

Definition log (e : Event) : M State unit :=
  modify (λ s, set_trace (trace s ++ [e]) s).

(** Nothing built, nothing attempted: the state at process start. *)
Definition fresh : State :=
  mkState None false None false None false None false None false None false
    None false [].

(** *** Registries *)

Definition initDynamicBuilder : M State (option error) :=
  Once_Do dynamicBuilderOnce set_dynamicBuilderOnce tt (
    log (EvConstruct RegDynamicBuilder);;
    modify (set_dynamicBuilder (Some protobuf_NewDynamicBuilder)));;
  mret None.

Definition DynamicBuilder
    : M State (option protobuf_DynamicBuilder * option error) :=
  err ← initDynamicBuilder;
  match err with
  | Some err => mret (None, Some err)
  | None => b ← gets dynamicBuilder; mret (b, None)
  end.

Definition initGRPCClient (cfg : config.Config) : M State (option error) :=
  Once_Do gRPCClientOnce set_gRPCClientOnce None (
    log (EvConstruct RegGRPCClient);;
    let addr :=
      config.Host (config.Server cfg) +:+ ":" +:+ config.Port (config.Server cfg) in
    if config.Web (config.Request cfg) then
      '(b, err) ← DynamicBuilder;
      match err with
      | Some err => mret (Some err)
      | None =>
          modify (set_gRPCClient (Some
            (grpc_NewWebClient addr (config.Reflection (config.Server cfg)) b)));;
          mret None
      end
    else
      let '(c, err) :=
        grpc_NewClient addr (config.Reflection (config.Server cfg)) in
      modify (set_gRPCClient c);;
      mret err).

Definition GRPCClient (cfg : config.Config)
    : M State (option entity_GRPCClient * option error) :=
  err ← initGRPCClient cfg;
  match err with
  | Some err => mret (None, Some err)
  | None => c ← gets gRPCClient; mret (c, None)
  end.

(** [env.UsePackage(pkg)] and [env.UseService(svc)] on the package variable
    [env]; the environment keeps the selection inside itself. *)
Definition env_call
    (method : environment_Environment → string → environment_Environment * option error)
    (arg : string) : M State (option error) :=
  e ← gets env;
  match e with
  | None => panic
  | Some e =>
      let '(e', err) := method e arg in
      modify (set_env (Some e'));;
      mret err
  end.

(** The part of the closure of [initEnv] after the client was obtained. *)
Definition initEnv_select (cfg : config.Config) (desc : protobuf_FileDesc)
    (gRPCClient : option entity_GRPCClient) : M State (option error) :=
  let headers :=
    (λ h, entity.Build_Header (config.Key h) (config.Val h)) <$>
      config.Header_ (config.Request cfg) in
  match gRPCClient with
  | None => panic
  | Some client =>
      rerr ←
        (if ReflectionEnabled client then
           match ListServices client with
           | Err err =>
               mret (Some (ErrWrap err "failed to list services by gRPC reflection"))
           | Ok (svcs, msgs) =>
               modify (set_env (Some (environment_NewFromServices svcs msgs headers)));;
               mret None
           end
         else
           modify (set_env (Some (environment_New desc headers)));;
           let pkg := config.Package (config.Default cfg) in
           if bool_decide (pkg ≠ "") then
             err ← env_call UsePackage pkg;
             match err with
             | Some err =>
                 mret (Some (ErrWrap err
                   ("failed to set package to env as a default package: " +:+ pkg)))
             | None => mret None
             end
           else mret None);
      match rerr with
      | Some rerr => mret (Some rerr)
      | None =>
          let svc := config.Service (config.Default cfg) in
          if bool_decide (svc ≠ "") then
            err ← env_call UseService svc;
            match err with
            | Some err =>
                mret (Some (ErrWrap err
                  ("failed to set service to env as a default service: " +:+ svc)))
            | None => mret None
            end
          else mret None
      end
  end.

Definition initEnv (cfg : config.Config) : M State (option error) :=
  Once_Do envOnce set_envOnce None (
    log (EvConstruct RegEnv);;
    match resolveProtoPaths cfg with
    | Err err => mret (Some err)
    | Ok paths =>
        let files := resolveProtoFiles cfg in
        match protobuf_ParseFile files paths with
        | Err err => mret (Some err)
        | Ok desc =>
            '(gRPCClient, err) ← GRPCClient cfg;
            match err with
            | Some err => mret (Some err)
            | None => initEnv_select cfg desc gRPCClient
            end
        end
    end).

Definition Env (cfg : config.Config)
    : M State (option environment_Environment * option error) :=
  err ← initEnv cfg;
  match err with
  | Some err => mret (None, Some err)
  | None => e ← gets env; mret (e, None)
  end.

Definition initJSONCLIPresenter : M State (option error) :=
  Once_Do jsonCLIPresenterOnce set_jsonCLIPresenterOnce tt (
    log (EvConstruct RegJSONCLIPresenter);;
    modify (set_jsonCLIPresenter (Some presenter_NewJSONWithIndent)));;
  mret None.

Definition initJSONFileInputter (in_ : io_Reader) : M State (option error) :=
  Once_Do jsonFileInputterOnce set_jsonFileInputterOnce tt (
    log (EvConstruct RegJSONFileInputter);;
    modify (set_jsonFileInputter (Some (inputter_NewJSONFile in_))));;
  mret None.

Definition initPromptInputter (cfg : config.Config) : M State (option error) :=
  Once_Do promptInputterOnce set_promptInputterOnce None (
    log (EvConstruct RegPromptInputter);;
    '(e, err) ← Env cfg;
    modify (set_promptInputter (Some
      (inputter_NewPrompt (config.PromptFormat (config.Input cfg)) e)));;
    mret err).

(** *** Orchestrator *)

Definition call (fn : ctor) : M State (option error) :=
  match fn with
  | fn_initJSONFileInputter in_ => initJSONFileInputter in_
  | fn_initPromptInputter cfg => initPromptInputter cfg
  | fn_initGRPCClient cfg => initGRPCClient cfg
  | fn_initEnv cfg => initEnv cfg
  | fn_initJSONCLIPresenter => initJSONCLIPresenter
  | fn_initDynamicBuilder => initDynamicBuilder
  end.

(** The list [initDependencies] registers, in its order. *)
Definition registered (cfg : config.Config) (in_ : io_Reader) : list ctor :=
  [ fn_initJSONFileInputter in_;
    fn_initPromptInputter cfg;
    fn_initGRPCClient cfg;
    fn_initEnv cfg;
    fn_initJSONCLIPresenter;
    fn_initDynamicBuilder ].

(** The initializer as [initDependencies] has it before the first [init]. *)
Definition registered_initer (cfg : config.Config) (in_ : io_Reader)
    : initializer.t ctor :=
  initializer.register (initializer.mk [] None false) (registered cfg in_).

(** A method call on the pointer [initer]: the method works on the
    initializer [initer] points to, and what it writes to its receiver stays
    written also when it panics. On a nil [initer] the first field access
    panics. *)
Definition on_initer {A} (m : M (initializer.t ctor * State) A) : M State A :=
  λ s, match initer s with
       | None => (s, Panic)
       | Some i =>
           match m (i, s) with
           | ((i', s'), o) => (set_initer (Some i') s', o)
           end
       end.

Definition initDependencies (cfg : config.Config) (in_ : io_Reader)
    : M State (option multierror.Error) :=
  Once_Do initerOnce set_initerOnce tt (
    modify (set_initer (Some (registered_initer cfg in_))));;
  err ← on_initer (initializer.init call);
  match err with
  | Some err =>
      c ← gets gRPCClient;
      match c with
      | None => panic
      | Some c =>
          log (EvClose c context_Background);;
          let _ := Close c context_Background in
          mret (Some err)
      end
  | None => mret None
  end.

(** What the closure of [initGRPCClient] assigns when it runs at process
    start: the package variable [gRPCClient] and its error variable. *)
Definition client_built (cfg : config.Config)
    : option entity_GRPCClient * option error :=
  let addr :=
    config.Host (config.Server cfg) +:+ ":" +:+ config.Port (config.Server cfg) in
  if config.Web (config.Request cfg) then
    (Some (grpc_NewWebClient addr (config.Reflection (config.Server cfg))
             (Some protobuf_NewDynamicBuilder)),
     None)
  else grpc_NewClient addr (config.Reflection (config.Server cfg)).

(** *** Configurations in which one construction fails *)

(** The construction of the gRPC client fails with [e], and nothing the
    environment does before it asks for the client fails. *)
Definition client_fails_alone (cfg : config.Config) (e : error) : Prop :=
  (initGRPCClient cfg fresh).2 = Ret (Some e)
  ∧ ∃ paths desc,
      resolveProtoPaths cfg = Ok paths
      ∧ protobuf_ParseFile (resolveProtoFiles cfg) paths = Ok desc.

(** The construction of the environment fails with [e] although the gRPC
    client can be built. *)
Definition env_fails_alone (cfg : config.Config) (e : error) : Prop :=
  (initGRPCClient cfg fresh).2 = Ret None
  ∧ (initEnv cfg fresh).2 = Ret (Some e).

(** *** What a call can see and what it leaves alone *)

(** The variables the client registry works with. *)
Definition client_view (s : State) :=
  (gRPCClient s, gRPCClientOnce s, dynamicBuilder s, dynamicBuilderOnce s).

(** The variables the environment registry works with. *)
Definition env_view (s : State) := (env s, envOnce s, client_view s).

(** Everything but the orchestrator itself. *)
Definition components_view (s : State) :=
  (env_view s, jsonCLIPresenter s, jsonCLIPresenterOnce s,
   jsonFileInputter s, jsonFileInputterOnce s,
   promptInputter s, promptInputterOnce s, trace s).

(** The six components themselves. *)
Definition built_view (s : State) :=
  (env s, gRPCClient s, jsonCLIPresenter s, jsonFileInputter s,
   promptInputter s, dynamicBuilder s).

(** [m] returns the same, and leaves the same view, from any two states
    with the same view. *)
Definition determined_by {V A : Type} (view : State → V) (m : M State A) : Prop :=
  ∀ s s', view s = view s' →
    (m s).2 = (m s').2 ∧ view (m s).1 = view (m s').1.

(** [m] keeps [P] true. *)
Definition stable {A : Type} (P : State → Prop) (m : M State A) : Prop :=
  ∀ s, P s → P (m s).1.

(** Once the builder registry is marked, the builder is there. *)
Definition builder_inv (s : State) : Prop :=
  dynamicBuilderOnce s = true →
  dynamicBuilder s = Some protobuf_NewDynamicBuilder.

End Di.
End di.

(** ** Package [usecase] *)

Module usecase.
Section Usecase.
Context `{Collaborators}.

Record InteractorParams : Type := {
  Env : option environment_Environment;
  OutputPort : option port_OutputPort;
  InputterPort : option port_Inputter;
  DynamicBuilder : option protobuf_DynamicBuilder;
  GRPCClient : option entity_GRPCClient }.

(** The state here is the list of [Close] calls made so far, oldest first. *)
Definition Cleanup (p : InteractorParams) (ctx : context_Context)
    : M (list (entity_GRPCClient * context_Context)) (option error) :=
  match GRPCClient p with
  | Some c =>
      modify (λ calls, calls ++ [(c, ctx)]);;
      mret (Close c ctx)
  | None => mret None
  end.

End Usecase.
End usecase.

(** ** Concurrent callers of one registry

    Goroutines that call the same [get] at the same time, as an interleaving
    of atomic steps. [sync.Once] is the one of the Go library: a [done] flag
    read without the lock, a mutex, a second look at [done] under the mutex,
    the closure, the deferred store to [done] and the deferred unlock. The
    closure is the constructor of the registry: it assigns the package
    variable and the error variable of the caller that runs it; [built] is
    the pair of values it assigns. After [Do] the caller returns its error
    variable if it is set and the package variable otherwise. *)

Module concurrent.
Section Callers.
Context {V : Type} (built : option V * option error).

(** Where a goroutine stands in [get]. *)
Inductive pc : Type :=
  | Enter       (* before the first load of done *)
  | WaitLock    (* in doSlow, before m.Lock() *)
  | Locked      (* holds m, before the second load of done *)
  | Running     (* holds m, inside the closure *)
  | Built       (* holds m, closure finished, before done.Store(1) *)
  | Unlocking   (* holds m, before m.Unlock() *)
  | Left        (* Do has returned *)
  | Returned.   (* get has returned *)

#[global] Instance pc_eq_dec : EqDecision pc.
Proof. solve_decision. Defined.

Record goroutine : Type := mkG {
  at_ : pc;
  err : option error;                       (* the variable the closure captures *)
  ran : bool;                               (* this goroutine ran the closure *)
  result : option (option V * option error) (* what get returned *) }.

Record shared : Type := mkS {
  done : bool;
  m : option nat;     (* the goroutine that holds the mutex *)
  var : option V;     (* the package variable *)
  runs : nat          (* how many times the closure was entered *) }.

Definition state : Type := shared * list goroutine.

(** One step of goroutine [i], when it can take one. *)
Definition step_of (i : nat) (g : goroutine) (sh : shared)
    : option (goroutine * shared) :=
  match at_ g with
  | Enter =>
      if done sh then Some (mkG Left (err g) (ran g) (result g), sh)
      else Some (mkG WaitLock (err g) (ran g) (result g), sh)
  | WaitLock =>
      match m sh with
      | None =>
          Some (mkG Locked (err g) (ran g) (result g),
                mkS (done sh) (Some i) (var sh) (runs sh))
      | Some _ => None
      end
  | Locked =>
      if done sh then Some (mkG Unlocking (err g) (ran g) (result g), sh)
      else Some (mkG Running (err g) true (result g),
                 mkS (done sh) (m sh) (var sh) (S (runs sh)))
  | Running =>
      Some (mkG Built built.2 (ran g) (result g),
            mkS (done sh) (m sh) built.1 (runs sh))
  | Built =>
      Some (mkG Unlocking (err g) (ran g) (result g),
            mkS true (m sh) (var sh) (runs sh))
  | Unlocking =>
      Some (mkG Left (err g) (ran g) (result g),
            mkS (done sh) None (var sh) (runs sh))
  | Left =>
      let r := match err g with
               | Some e => (None, Some e)
               | None => (var sh, None)
               end in
      Some (mkG Returned (err g) (ran g) (Some r), sh)
  | Returned => None
  end.

Definition step_thread (i : nat) (c : state) : option state :=
  g ← c.2 !! i;
  '(g', sh') ← step_of i g c.1;
  Some (sh', <[i := g']> c.2).

Definition step (c c' : state) : Prop := ∃ i, step_thread i c = Some c'.

(** [n] goroutines about to call [get]; nothing was built yet. *)
Definition start (n : nat) : state :=
  (mkS false None None 0, replicate n (mkG Enter None false None)).

Definition reachable (n : nat) (c : state) : Prop := rtc step (start n) c.

(** The goroutines of [schedule] take one step each, in turn; a goroutine
    that cannot move is passed over. *)
Fixpoint run (schedule : list nat) (c : state) : state :=
  match schedule with
  | [] => c
  | i :: schedule' => run schedule' (default c (step_thread i c))
  end.

Definition all_returned (c : state) : Prop :=
  ∀ i g, c.2 !! i = Some g → at_ g = Returned.

(** What a caller returns, given its error variable, once the package
    variable holds what the constructor assigned. *)
Definition outcome_of (e : option error) : option V * option error :=
  match e with
  | Some e => (None, Some e)
  | None => (built.1, None)
  end.

(** What holds of goroutine [i] in every reachable state, by where it
    stands. *)
Definition local_inv (sh : shared) (i : nat) (g : goroutine) : Prop :=
  (ran g = true → runs sh = 1)
  ∧ match at_ g with
    | Enter | WaitLock =>
        m sh ≠ Some i ∧ ran g = false ∧ err g = None ∧ result g = None
    | Locked =>
        m sh = Some i ∧ ran g = false ∧ err g = None ∧ result g = None
    | Running =>
        m sh = Some i ∧ ran g = true ∧ err g = None ∧ result g = None
        ∧ done sh = false
    | Built =>
        m sh = Some i ∧ ran g = true ∧ err g = built.2 ∧ result g = None
        ∧ done sh = false ∧ var sh = built.1
    | Unlocking =>
        m sh = Some i ∧ err g = (if ran g then built.2 else None)
        ∧ result g = None ∧ done sh = true
    | Left =>
        m sh ≠ Some i ∧ err g = (if ran g then built.2 else None)
        ∧ result g = None ∧ done sh = true
    | Returned =>
        m sh ≠ Some i ∧ err g = (if ran g then built.2 else None)
        ∧ result g = Some (outcome_of (err g)) ∧ done sh = true
    end.

(** What holds of the shared variables in every reachable state. *)
Definition global_inv (c : state) : Prop :=
  runs c.1 ≤ 1
  ∧ (done c.1 = true → runs c.1 = 1 ∧ var c.1 = built.1)
  ∧ (runs c.1 = 1 →
       done c.1 = true
       ∨ ∃ j g, c.2 !! j = Some g ∧ (at_ g = Running ∨ at_ g = Built))
  ∧ (runs c.1 = 1 → ∃ j g, c.2 !! j = Some g ∧ ran g = true)
  ∧ (∀ j, m c.1 = Some j → j < length c.2)
  ∧ (∀ j k gj gk, c.2 !! j = Some gj → c.2 !! k = Some gk →
       ran gj = true → ran gk = true → j = k).

Definition inv (c : state) : Prop :=
  global_inv c ∧ ∀ i g, c.2 !! i = Some g → local_inv c.1 i g.

(** How far a goroutine is from having returned. *)
Definition rank (p : pc) : nat :=
  match p with
  | Enter => 7 | WaitLock => 6 | Locked => 5 | Running => 4
  | Built => 3 | Unlocking => 2 | Left => 1 | Returned => 0
  end.

Definition work (c : state) : nat := sum_list ((λ g, rank (at_ g)) <$> c.2).

End Callers.
End concurrent.

(** ** A stand-in for the collaborators

    Concrete collaborators on which the model can be run: handles are strings
    or numbers, the shell-word parser splits on blanks and substitutes
    [$NAME] from an empty process environment, and the three switches of
    [scenario] decide which collaborator calls fail. *)

Module sample.

Record scenario : Type := {
  dial_fails : bool;        (* grpc.NewClient returns (nil, err) *)
  parse_file_fails : bool;  (* protobuf.ParseFile returns an error *)
  use_service_fails : bool  (* env.UseService returns an error *) }.

Definition is_blank (c : ascii) : bool :=
  bool_decide (c = " "%char) || bool_decide (c = "009"%char).

(** Words separated by blanks; [cur] is the word being read. *)
Fixpoint words (cur : string) (s : string) : list string :=
  match s with
  | EmptyString => if bool_decide (cur = "") then [] else [cur]
  | String c s' =>
      if is_blank c then
        (if bool_decide (cur = "") then words "" s' else cur :: words "" s')
      else words (cur +:+ String c "") s'
  end.

(** No variable is set in the stand-in process environment. *)
Definition getenv (name : string) : string := "".

Definition expand (w : string) : string :=
  match w with
  | String "$" name => getenv name
  | _ => w
  end.

Fixpoint ends_with_backslash (s : string) : bool :=
  match s with
  | EmptyString => false
  | String c EmptyString => bool_decide (c = "\"%char)
  | String _ s' => ends_with_backslash s'
  end.

Definition Parse (line : string) : res (list string) :=
  if ends_with_backslash line then Err (ErrExt "invalid command line string")
  else Ok (filter (λ w, w ≠ "") (expand <$> words "" line)).

Definition dial_error : error := ErrExt "failed to dial to gRPC server".
Definition parse_file_error : error := ErrExt "proto: no such file".
Definition use_service_error : error := ErrExt "env: unknown service".
Definition close_error : error := ErrExt "grpc: the connection is closing".

Definition world (sc : scenario) : Collaborators := {|
  entity_GRPCClient := string;
  entity_Service := string;
  entity_Message := string;
  environment_Environment := list string;
  protobuf_FileDesc := list string;
  protobuf_DynamicBuilder := unit;
  presenter_JSONPresenter := unit;
  inputter_JSONFile := nat;
  inputter_PromptInputter := string * option (list string);
  port_OutputPort := unit;
  port_Inputter := unit;
  io_Reader := nat;
  context_Context := unit;
  context_Background := tt;
  shellwords_Parse := Parse;
  protobuf_ParseFile := λ files paths,
    if parse_file_fails sc then Err parse_file_error else Ok (paths ++ files);
  protobuf_NewDynamicBuilder := tt;
  grpc_NewClient := λ addr reflection,
    if dial_fails sc then (None, Some dial_error) else (Some addr, None);
  grpc_NewWebClient := λ addr reflection b, "web:" +:+ addr;
  ReflectionEnabled := λ c, false;
  ListServices := λ c, Ok ([], []);
  Close := λ c ctx, if bool_decide (c = "stale") then Some close_error else None;
  environment_New := λ desc headers, desc;
  environment_NewFromServices := λ svcs msgs headers, svcs ++ msgs;
  UsePackage := λ e pkg, (e ++ [pkg], None);
  UseService := λ e svc,
    if use_service_fails sc then (e, Some use_service_error)
    else (e ++ [svc], None);
  inputter_NewJSONFile := λ r, r;
  inputter_NewPrompt := λ format e, (format, e);
  presenter_NewJSONWithIndent := tt;
|}.

(** A configuration for a plain (non web) client with local proto files. *)
Definition cfg_with (paths : list string) : config.Config := {|
  config.Default := {|
    config.ProtoPath := paths;
    config.ProtoFile := ["api.proto"; ""];
    config.Package := "";
    config.Service := "Greeter" |};
  config.Server := {|
    config.Host := "localhost"; config.Port := "50051";
    config.Reflection := false |};
  config.Request := {| config.Header_ := []; config.Web := false |};
  config.Input := {| config.PromptFormat := "{name}> " |} |}.

Definition cfg : config.Config := cfg_with ["./protos"].

(** Constructors for the orchestrator alone: each one notes its number in the
    state and fails when its flag says so. *)
Definition numbered (fn : nat * bool) : M (list nat) (option error) :=
  modify (λ calls, calls ++ [fn.1]);;
  mret (if fn.2 then Some (ErrExt ("constructor " +:+ pretty fn.1)) else None).

Definition all_fine : scenario := Build_scenario false false false.
Definition dial_down : scenario := Build_scenario true false false.
Definition bad_proto : scenario := Build_scenario false true false.
Definition bad_service : scenario := Build_scenario false false true.

(** Two goroutines call [GRPCClient] at once: both get past the first look
    at [done]; goroutine 0 takes the mutex and runs the constructor while
    goroutine 1 waits for the mutex (its turn in between is passed over). *)
Definition two_callers : list nat := [0; 1; 0; 1; 0; 0; 0; 0; 0; 1; 1; 1; 1].

(** Interactor parameters that hold at most a client. *)
Definition params (c : option string)
    : usecase.InteractorParams (H := world all_fine) :=
  usecase.Build_InteractorParams (H := world all_fine) None None None None c.

End sample.

(** ** What a run leaves in its record *)

Module record.
Section Record.
Context `{Collaborators}.

(** The [Close] calls of a record, oldest first. *)
Definition closes (tr : list di.Event)
    : list (entity_GRPCClient * context_Context) :=
  omap (λ ev, match ev with
              | di.EvClose c ctx => Some (c, ctx)
              | di.EvConstruct _ => None
              end) tr.

Definition same_registry (a b : di.registry) : bool :=
  match a, b with
  | di.RegEnv, di.RegEnv
  | di.RegJSONCLIPresenter, di.RegJSONCLIPresenter
  | di.RegJSONFileInputter, di.RegJSONFileInputter
  | di.RegPromptInputter, di.RegPromptInputter
  | di.RegGRPCClient, di.RegGRPCClient
  | di.RegDynamicBuilder, di.RegDynamicBuilder => true
  | _, _ => false
  end.

Definition is_construct (r : di.registry) (ev : di.Event) : bool :=
  match ev with
  | di.EvConstruct r' => same_registry r' r
  | di.EvClose _ _ => false
  end.

(** How often the constructor closure of registry [r] was entered. *)
Definition constructions (r : di.registry) (tr : list di.Event) : nat :=
  length (filter (λ ev, Is_true (is_construct r ev)) tr).

(** The [sync.Once] of a registry. *)
Definition once (r : di.registry) (s : di.State) : bool :=
  match r with
  | di.RegEnv => di.envOnce s
  | di.RegJSONCLIPresenter => di.jsonCLIPresenterOnce s
  | di.RegJSONFileInputter => di.jsonFileInputterOnce s
  | di.RegPromptInputter => di.promptInputterOnce s
  | di.RegGRPCClient => di.gRPCClientOnce s
  | di.RegDynamicBuilder => di.dynamicBuilderOnce s
  end.

(** The registry a registered function goes through. *)
Definition registry_of (fn : di.ctor) : di.registry :=
  match fn with
  | di.fn_initJSONFileInputter _ => di.RegJSONFileInputter
  | di.fn_initPromptInputter _ => di.RegPromptInputter
  | di.fn_initGRPCClient _ => di.RegGRPCClient
  | di.fn_initEnv _ => di.RegEnv
  | di.fn_initJSONCLIPresenter => di.RegJSONCLIPresenter
  | di.fn_initDynamicBuilder => di.RegDynamicBuilder
  end.

(** The closure of [r] was entered once if its [Once] is marked, and never
    otherwise. *)
Definition marked (r : di.registry) (s : di.State) : Prop :=
  constructions r (di.trace s) = if once r s then 1 else 0.

(** The closure of [r] has been entered and has not finished. *)
Definition entered (r : di.registry) (s : di.State) : Prop :=
  constructions r (di.trace s) = 1 ∧ once r s = false.

(** A client is there only if its registry is marked. *)
Definition client_inv (s : di.State) : Prop :=
  is_Some (di.gRPCClient s) → di.gRPCClientOnce s = true.

(** The orchestrator and the [Close] calls: the cache field is never set,
    and the client was closed at most once, by an orchestrator that is done. *)
Definition closed_once (s : di.State) : Prop :=
  (∀ i, di.initer s = Some i → initializer.resultCache i = None)
  ∧ (if di.initerOnce s then is_Some (di.initer s) else di.initer s = None)
  ∧ (closes (di.trace s) = []
     ∨ (length (closes (di.trace s)) = 1
        ∧ ∃ i, di.initer s = Some i ∧ initializer.done i = true)).

(** The functions of the package, as calls a program can make. *)
Inductive op : Type :=
  | call_initEnv (cfg : config.Config)
  | call_Env (cfg : config.Config)
  | call_initJSONCLIPresenter
  | call_initJSONFileInputter (in_ : io_Reader)
  | call_initPromptInputter (cfg : config.Config)
  | call_initGRPCClient (cfg : config.Config)
  | call_GRPCClient (cfg : config.Config)
  | call_initDynamicBuilder
  | call_DynamicBuilder
  | call_initDependencies (cfg : config.Config) (in_ : io_Reader).

(** The state a call leaves (also when it panics and the panic is
    recovered by the caller). *)
Definition exec (o : op) (s : di.State) : di.State :=
  match o with
  | call_initEnv cfg => (di.initEnv cfg s).1
  | call_Env cfg => (di.Env cfg s).1
  | call_initJSONCLIPresenter => (di.initJSONCLIPresenter s).1
  | call_initJSONFileInputter in_ => (di.initJSONFileInputter in_ s).1
  | call_initPromptInputter cfg => (di.initPromptInputter cfg s).1
  | call_initGRPCClient cfg => (di.initGRPCClient cfg s).1
  | call_GRPCClient cfg => (di.GRPCClient cfg s).1
  | call_initDynamicBuilder => (di.initDynamicBuilder s).1
  | call_DynamicBuilder => (di.DynamicBuilder s).1
  | call_initDependencies cfg in_ => (di.initDependencies cfg in_ s).1
  end.

(** Any sequence of calls from process start. *)
Definition after (ops : list op) : di.State := foldl (λ s o, exec o s) di.fresh ops.

End Record.
End record.

(** ** More stand-ins

    A server that offers reflection, and configurations for the web client
    and for a default package. *)

Module fixtures.


(** Neither the proto files nor the server can be reached. *)
Definition both_down : sample.scenario := sample.Build_scenario true true false.

(** [sample.cfg] for the web client. *)
Definition web_cfg : config.Config := {|
  config.Default := config.Default sample.cfg;
  config.Server := config.Server sample.cfg;
  config.Request := {| config.Header_ := []; config.Web := true |};
  config.Input := config.Input sample.cfg |}.


(** A proto path entry the stand-in parser rejects. *)
Definition cfg_broken_path : config.Config :=
  sample.cfg_with ["./protos"; "./dir\"; "a b"].

(** Proto file lists: one list twice over, and the list already resolved. *)
Definition files_cfg (files : list string) : config.Config := {|
  config.Default := {|
    config.ProtoPath := []; config.ProtoFile := files;
    config.Package := ""; config.Service := "" |};
  config.Server := config.Server sample.cfg;
  config.Request := config.Request sample.cfg;
  config.Input := config.Input sample.cfg |}.

End fixtures.

(** * Properties *)

(** ** Path resolver *)

Section PathResolverFacts.
Context `{Collaborators}.

Lemma resolveProtoFiles_loop_filter (entries files : list string) :
  di.resolveProtoFiles_loop entries files = files ++ filter (λ fl, fl ≠ "") entries.
Proof.
  revert files. induction entries as [|fl entries IH]; intros files; simpl.
  - by rewrite app_nil_r.
  - rewrite filter_cons. destruct (decide (fl ≠ "")) as [Hfl|Hfl].
    + rewrite bool_decide_true by done. rewrite IH. by rewrite <- app_assoc.
    + rewrite bool_decide_false by done. apply IH.
Qed.

(** C8. [resolveProtoFiles] returns the configured file names without the
    empty ones: each remaining entry is the entry itself, in its original
    position relative to the others. *)
Theorem resolveProtoFiles_drops_empty_only (conf : config.Config) :
  di.resolveProtoFiles conf =
    filter (λ fl, fl ≠ "") (config.ProtoFile (config.Default conf)).
Proof.
  unfold di.resolveProtoFiles. by rewrite resolveProtoFiles_loop_filter.
Qed.

Lemma dedup_from_elem_of (seen l : list string) (x : string) :
  x ∈ di.dedup_from seen l ↔ x ∈ l ∧ x ∉ seen.
Proof.
  revert seen. induction l as [|y l IH]; intros seen; simpl.
  - set_solver.
  - case_bool_decide as Hy.
    + rewrite IH. set_solver.
    + rewrite elem_of_cons, IH. destruct (decide (x = y)) as [->|Hne]; set_solver.
Qed.

Lemma dedup_from_NoDup (seen l : list string) :
  NoDup seen → NoDup (seen ++ di.dedup_from seen l).
Proof.
  revert seen. induction l as [|y l IH]; intros seen Hseen; simpl.
  - by rewrite app_nil_r.
  - case_bool_decide as Hy; [by apply IH|].
    replace (seen ++ y :: di.dedup_from (seen ++ [y]) l)
      with ((seen ++ [y]) ++ di.dedup_from (seen ++ [y]) l)
      by (by rewrite <- app_assoc).
    apply IH. apply NoDup_app. split_and!; [done| |apply NoDup_singleton].
    intros z Hz Hz'. apply list_elem_of_singleton in Hz' as ->. done.
Qed.

(** Appending one entry at the end adds it to the result exactly when it was
    not met before: earlier occurrences win and keep their place. *)
Lemma dedup_from_snoc (seen l : list string) (x : string) :
  di.dedup_from seen (l ++ [x]) =
    if bool_decide (x ∈ seen ++ l) then di.dedup_from seen l
    else di.dedup_from seen l ++ [x].
Proof.
  revert seen. induction l as [|y l IH]; intros seen; simpl.
  - rewrite app_nil_r. by case_bool_decide.
  - case_bool_decide as Hy.
    + rewrite IH. repeat case_bool_decide; set_solver.
    + rewrite IH. rewrite <- app_assoc. simpl. by case_bool_decide.
Qed.

Lemma resolveProtoPaths_loop_spec (entries paths : list string)
    (encountered : gmap string bool) :
  (∀ x, default false (encountered !! x) = true ↔ x ∈ paths) →
  di.resolveProtoPaths_loop entries paths encountered =
    match di.parse_all entries with
    | Err err => Err err
    | Ok tokens =>
        Ok (paths ++ di.dedup_from paths (filter (λ x, x ≠ "") tokens))
    end.
Proof.
  revert paths encountered.
  induction entries as [|p entries IH]; intros paths enc Hinv; simpl.
  - by rewrite app_nil_r.
  - destruct (di.parse p) as [path|err]; [|done].
    destruct (default false (enc !! path)) eqn:Hseen; simpl.
    + rewrite (IH _ _ Hinv). destruct (di.parse_all entries) as [tokens|]; [|done].
      apply Hinv in Hseen. rewrite filter_cons.
      case_decide; [|done]. simpl. by rewrite bool_decide_true.
    + case_bool_decide as Hempty.
      * rewrite (IH _ _ Hinv). destruct (di.parse_all entries) as [tokens|]; [|done].
        rewrite filter_cons. by case_decide.
      * assert (path ∉ paths) as Hfresh.
        { intros Hin. apply Hinv in Hin. congruence. }
        rewrite IH.
        -- destruct (di.parse_all entries) as [tokens|]; [|done].
           rewrite filter_cons. case_decide; [|done]. simpl.
           rewrite bool_decide_false by done. by rewrite <- app_assoc.
        -- intros x. rewrite elem_of_app, list_elem_of_singleton.
           destruct (decide (path = x)) as [->|Hne].
           ++ rewrite lookup_insert_eq. simpl. tauto.
           ++ rewrite lookup_insert_ne by done. rewrite Hinv. naive_solver.
Qed.

Lemma resolveProtoPaths_spec (cfg : config.Config) :
  di.resolveProtoPaths cfg =
    match di.parse_all (config.ProtoPath (config.Default cfg)) with
    | Err err => Err err
    | Ok tokens => Ok (di.dedup_first (filter (λ x, x ≠ "") tokens))
    end.
Proof.
  unfold di.resolveProtoPaths. rewrite resolveProtoPaths_loop_spec; [done|].
  intros x. rewrite lookup_empty. simpl. set_solver.
Qed.

Lemma dedup_from_seen_ext (seen seen' l : list string) :
  (∀ x, x ∈ seen ↔ x ∈ seen') → di.dedup_from seen l = di.dedup_from seen' l.
Proof.
  revert seen seen'. induction l as [|y l IH]; intros seen seen' Hext; simpl; [done|].
  rewrite (bool_decide_ext _ _ (Hext y)). case_bool_decide; [by apply IH|].
  f_equal. apply IH. intros x. rewrite !elem_of_app, Hext. done.
Qed.

Lemma dedup_from_app (seen l1 l2 : list string) :
  di.dedup_from seen (l1 ++ l2) =
    di.dedup_from seen l1 ++ di.dedup_from (seen ++ l1) l2.
Proof.
  revert seen. induction l1 as [|y l1 IH]; intros seen; simpl.
  - by rewrite app_nil_r.
  - case_bool_decide as Hy.
    + rewrite IH. f_equal. apply dedup_from_seen_ext. set_solver.
    + rewrite IH. simpl. do 2 f_equal. by rewrite <- app_assoc.
Qed.

Lemma dedup_first_sublist (seen l : list string) : sublist (di.dedup_from seen l) l.
Proof.
  revert seen. induction l as [|y l IH]; intros seen; simpl; [done|].
  case_bool_decide; [apply sublist_cons | apply sublist_skip]; apply IH.
Qed.

Lemma parse_all_app (l1 l2 : list string) :
  di.parse_all (l1 ++ l2) =
    match di.parse_all l1 with
    | Err err => Err err
    | Ok a =>
        match di.parse_all l2 with
        | Err err => Err err
        | Ok b => Ok (a ++ b)
        end
    end.
Proof.
  induction l1 as [|p l1 IH]; simpl.
  - by destruct (di.parse_all l2).
  - destruct (di.parse p); [|done]. rewrite IH.
    destruct (di.parse_all l1); [|done]. by destruct (di.parse_all l2).
Qed.

(** C6. The result of [resolveProtoPaths] is the list of resolved, non-empty
    entries with every repetition of an earlier string removed: it has no
    duplicates, holds exactly the non-empty resolved strings, keeps their
    order, and a string stands where its first occurrence puts it. For the
    entries ["./protos"; "$UNSET_VAR"; "./protos"; "a b"], with the variable
    unset, the first three give ["./protos"] and the fourth makes the call
    fail with the ambiguous-path error. *)
Theorem resolveProtoPaths_dedup_first_wins :
  (∀ (cfg : config.Config) (tokens : list string),
     di.parse_all (config.ProtoPath (config.Default cfg)) = Ok tokens →
     ∃ paths,
       di.resolveProtoPaths cfg = Ok paths
       ∧ NoDup paths
       ∧ (∀ x, x ∈ paths ↔ x ∈ tokens ∧ x ≠ "")
       ∧ sublist paths tokens
       ∧ (∀ before x after,
            tokens = before ++ x :: after → x ≠ "" → x ∉ before →
            ∃ rest,
              paths = di.dedup_first (filter (λ y, y ≠ "") before) ++ x :: rest))
  ∧ (shellwords_Parse "./protos" = Ok ["./protos"] →
     shellwords_Parse "$UNSET_VAR" = Ok [] ∨ shellwords_Parse "$UNSET_VAR" = Ok [""] →
     shellwords_Parse "a b" = Ok ["a"; "b"] →
     ∀ (cfg3 cfg4 : config.Config),
       config.ProtoPath (config.Default cfg3) =
         ["./protos"; "$UNSET_VAR"; "./protos"] →
       config.ProtoPath (config.Default cfg4) =
         ["./protos"; "$UNSET_VAR"; "./protos"; "a b"] →
       di.resolveProtoPaths cfg3 = Ok ["./protos"]
       ∧ di.resolveProtoPaths cfg4 = Err di.ambiguous_path).
Proof.
  split.
  - intros cfg tokens Hall. rewrite resolveProtoPaths_spec, Hall.
    eexists. split; [done|]. unfold di.dedup_first. split_and!.
    + apply (dedup_from_NoDup [] _), NoDup_nil_2.
    + intros x. rewrite dedup_from_elem_of, list_elem_of_filter. set_solver.
    + etrans; [apply dedup_first_sublist | apply sublist_filter].
    + intros before x after -> Hx Hfresh.
      rewrite filter_app, filter_cons. case_decide; [|done].
      rewrite dedup_from_app. simpl.
      rewrite bool_decide_false; [by eexists|].
      rewrite list_elem_of_filter. tauto.
  - intros Hp Hu Hab cfg3 cfg4 H3 H4.
    unfold di.resolveProtoPaths. rewrite H3, H4. simpl.
    unfold di.parse. rewrite Hp, Hab.
    destruct Hu as [-> | ->]; simpl; by rewrite lookup_insert_eq.
Qed.

(** C7 (as the code has it). An entry that expands to more than one token
    fails with the ambiguous-path error, and so does the whole call (with
    that very error whenever no earlier entry failed first, and with the
    error of the earlier entries otherwise). An entry that expands to no
    token at all resolves to the empty string and leaves the result of the
    call exactly as it is without the entry. *)
Theorem resolveProtoPaths_token_count (cfg : config.Config)
    (pre post : list string) (p : string) (tokens : list string) :
  config.ProtoPath (config.Default cfg) = pre ++ p :: post →
  shellwords_Parse p = Ok tokens →
  (1 < length tokens →
     di.parse p = Err di.ambiguous_path
     ∧ (∃ err, di.resolveProtoPaths cfg = Err err)
     ∧ (∀ paths, di.parse_all pre = Ok paths →
          di.resolveProtoPaths cfg = Err di.ambiguous_path)
     ∧ (∀ err, di.parse_all pre = Err err →
          di.resolveProtoPaths cfg = Err err))
  ∧ (length tokens = 0 →
     di.parse p = Ok ""
     ∧ (∀ cfg' : config.Config,
          config.ProtoPath (config.Default cfg') = pre ++ post →
          di.resolveProtoPaths cfg = di.resolveProtoPaths cfg')).
Proof.
  intros Hcfg Htok. split.
  - intros Hmany.
    assert (di.parse p = Err di.ambiguous_path) as Hp.
    { unfold di.parse. rewrite Htok. by case_decide. }
    split; [done|].
    rewrite resolveProtoPaths_spec, Hcfg, parse_all_app. simpl. rewrite Hp.
    split_and!.
    + destruct (di.parse_all pre); eauto.
    + by intros paths ->.
    + by intros err ->.
  - intros Hnone. destruct tokens; [|done].
    assert (di.parse p = Ok "") as Hp.
    { unfold di.parse. by rewrite Htok. }
    split; [done|]. intros cfg' Hcfg'.
    rewrite !resolveProtoPaths_spec, Hcfg, Hcfg', !parse_all_app. simpl.
    rewrite Hp. destruct (di.parse_all pre) as [a|]; [|done].
    destruct (di.parse_all post) as [b|]; [|done].
    rewrite !filter_app, filter_cons. by case_decide.
Qed.

End PathResolverFacts.

Lemma resolveProtoPaths_dedup_first_wins_witness :
  di.resolveProtoPaths (H := sample.world sample.all_fine)
    (sample.cfg_with ["./protos"; "$UNSET_VAR"; "./protos"]) = Ok ["./protos"]
  ∧ di.resolveProtoPaths (H := sample.world sample.all_fine)
      (sample.cfg_with ["./protos"; "$UNSET_VAR"; "./protos"; "a b"]) =
    Err di.ambiguous_path.
Proof.
  apply (proj2 (@resolveProtoPaths_dedup_first_wins (sample.world sample.all_fine)));
    [reflexivity | left; reflexivity | reflexivity | reflexivity | reflexivity].
Defined.

Lemma resolveProtoPaths_token_count_witness :
  di.resolveProtoPaths (H := sample.world sample.all_fine)
    (sample.cfg_with ["./protos"; "a b"; "./more"]) = Err di.ambiguous_path
  ∧ di.resolveProtoPaths (H := sample.world sample.all_fine)
      (sample.cfg_with ["./protos"; "$UNSET_VAR"; "./more"]) =
    di.resolveProtoPaths (H := sample.world sample.all_fine)
      (sample.cfg_with ["./protos"; "./more"]).
Proof.
  split.
  - destruct (proj1 (@resolveProtoPaths_token_count (sample.world sample.all_fine)
      (sample.cfg_with ["./protos"; "a b"; "./more"])
      ["./protos"] ["./more"] "a b" ["a"; "b"] eq_refl eq_refl))
      as (_ & _ & Hall & _); [simpl; lia|].
    apply (Hall ["./protos"]). reflexivity.
  - destruct (proj2 (@resolveProtoPaths_token_count (sample.world sample.all_fine)
      (sample.cfg_with ["./protos"; "$UNSET_VAR"; "./more"])
      ["./protos"] ["./more"] "$UNSET_VAR" [] eq_refl eq_refl))
      as [_ Hsame]; [reflexivity|].
    apply Hsame. reflexivity.
Defined.

(** C7, where the claim fails: the entry ["a b"] expands to two tokens, yet
    the call does not fail with the ambiguous-path error. The entry before
    it is rejected by the parser, and the loop returns the first error it
    meets. *)
Lemma resolveProtoPaths_earlier_error_wins :
  shellwords_Parse (Collaborators := sample.world sample.all_fine) "a b" =
    Ok ["a"; "b"]
  ∧ di.resolveProtoPaths (H := sample.world sample.all_fine)
      (sample.cfg_with ["./dir\"; "a b"]) =
    Err (ErrExt "invalid command line string")
  ∧ ErrExt "invalid command line string" ≠ di.ambiguous_path.
Proof. split_and!; [reflexivity|vm_compute; reflexivity|done]. Qed.

(** ** Orchestrator *)

Section InitFacts.
Context {S F : Type} (call : F → M S (option error)).

Lemma Append_aggregate (errs : list error) (e : error) :
  Some (multierror.Append (initializer.aggregate errs) e) =
    initializer.aggregate (errs ++ [e]).
Proof. by destruct errs. Qed.

Lemma init_loop_runs (fs : list F) (s s' : S) (outs : list (option error))
    (errs : list error) :
  initializer.runs_in_order call fs s outs s' →
  initializer.init_loop call fs (initializer.aggregate errs) s =
    (s', Ret (initializer.aggregate (errs ++ initializer.errors_of outs))).
Proof.
  intros Hruns. revert errs.
  induction Hruns as [s|fn fs s s1 s2 o os Hcall _ IH]; intros errs.
  - simpl. by rewrite app_nil_r.
  - cbn [initializer.init_loop]. unfold mbind, M_bind at 1. rewrite Hcall.
    destruct o as [e|]; simpl.
    + rewrite Append_aggregate, IH. by rewrite <- app_assoc.
    + apply IH.
Qed.

Lemma runs_in_order_length (fs : list F) (s s' : S) (outs : list (option error)) :
  initializer.runs_in_order call fs s outs s' → length outs = length fs.
Proof. induction 1; simpl; congruence. Qed.

Lemma runs_in_order_total (fs : list F) (s : S) :
  (∀ fn s0, fn ∈ fs → ∃ s1 o, call fn s0 = (s1, Ret o)) →
  ∃ outs s', initializer.runs_in_order call fs s outs s'.
Proof.
  revert s. induction fs as [|fn fs IH]; intros s Hret.
  - eexists _, _. constructor.
  - destruct (Hret fn s) as (s1 & o & Hcall); [set_solver|].
    destruct (IH s1) as (os & s2 & Hruns).
    { intros fn' s0 Hin. apply Hret. set_solver. }
    eexists _, _. by econstructor.
Qed.

(** [init] in one piece. *)
Lemma init_unfold (i : initializer.t F) (s : S) :
  initializer.init call (i, s) =
    if initializer.done i then ((i, s), Ret (initializer.resultCache i))
    else match initializer.init_loop call (initializer.f i) None s with
         | (s', o) =>
             ((initializer.mk (initializer.f i) (initializer.resultCache i) true, s'),
              o)
         end.
Proof.
  unfold initializer.init, initializer.on_state, mbind, M_bind, gets, modify.
  simpl. by destruct (initializer.done i).
Qed.

Lemma init_runs (i : initializer.t F) (s s' : S) (outs : list (option error)) :
  initializer.done i = false →
  initializer.runs_in_order call (initializer.f i) s outs s' →
  initializer.init call (i, s) =
    ((initializer.mk (initializer.f i) (initializer.resultCache i) true, s'),
     Ret (initializer.aggregate (initializer.errors_of outs))).
Proof.
  intros Hdone Hruns. rewrite init_unfold, Hdone.
  pose proof (init_loop_runs _ _ _ _ [] Hruns) as Hloop. simpl in Hloop.
  by rewrite Hloop.
Qed.

(** C4. The first [init] of an initializer is the run of all registered
    constructors in the order of the list, each in the state the one before
    left, whatever the earlier ones returned: there are as many returned
    values as constructors, and [init] returns the aggregate of the errors
    among them, in that order (nil when there is none). Such a run exists
    whenever no constructor panics. *)
Theorem init_first_call_runs_all (i : initializer.t F) (s : S) :
  initializer.done i = false →
  (∀ outs s',
     initializer.runs_in_order call (initializer.f i) s outs s' →
     length outs = length (initializer.f i)
     ∧ initializer.init call (i, s) =
         ((initializer.mk (initializer.f i) (initializer.resultCache i) true, s'),
          Ret (initializer.aggregate (initializer.errors_of outs))))
  ∧ ((∀ fn s0, fn ∈ initializer.f i → ∃ s1 o, call fn s0 = (s1, Ret o)) →
     ∃ outs s', initializer.runs_in_order call (initializer.f i) s outs s').
Proof.
  intros Hdone. split.
  - intros outs s' Hruns. split; [by eapply runs_in_order_length|].
    by apply init_runs.
  - apply runs_in_order_total.
Qed.

(** What a later [init] does: it calls nothing and hands out the field
    [resultCache], which [init] itself never assigns. *)
Lemma init_again (i i1 : initializer.t F) (s s1 : S)
    (r1 : option multierror.Error) :
  initializer.init call (i, s) = ((i1, s1), Ret r1) →
  initializer.init call (i1, s1) = ((i1, s1), Ret (initializer.resultCache i)).
Proof.
  rewrite !init_unfold. destruct (initializer.done i) eqn:Hdone.
  - intros [= <- <- <-]. by rewrite Hdone.
  - destruct (initializer.init_loop call (initializer.f i) None s) as [s' [r|]];
      [|done].
    by intros [= <- <- <-].
Qed.

End InitFacts.

Lemma init_first_call_runs_all_witness :
  initializer.init sample.numbered
    (initializer.mk [(1, true); (2, false); (3, true)] None false, []) =
  ((initializer.mk [(1, true); (2, false); (3, true)] None true, [1; 2; 3]),
   Ret (Some [ErrExt "constructor 1"; ErrExt "constructor 3"])).
Proof.
  apply (proj1 (init_first_call_runs_all sample.numbered
    (initializer.mk [(1, true); (2, false); (3, true)] None false) [] eq_refl)
    [Some (ErrExt "constructor 1"); None; Some (ErrExt "constructor 3")]).
  repeat (econstructor; [reflexivity|]). constructor.
Defined.

(** C2 (the code departs from it). A second [init] calls no constructor,
    but what it returns is the field [resultCache], which no call assigns:
    for an initializer created with a nil [resultCache], as
    [initDependencies] creates it, the second call returns nil whatever the
    first call returned. With one constructor that fails: the first [init]
    returns the aggregate holding its error, the second returns nil and
    leaves the state at [[1]]. *)
Theorem init_second_call_returns_nil :
  (∀ (S F : Type) (call : F → M S (option error)) (i i1 : initializer.t F)
     (s s1 : S) (r1 : option multierror.Error),
     initializer.resultCache i = None →
     initializer.init call (i, s) = ((i1, s1), Ret r1) →
     initializer.init call (i1, s1) = ((i1, s1), Ret None))
  ∧ (let i0 := initializer.mk [(1, true)] None false in
     let i1 := initializer.mk [(1, true)] None true in
     initializer.init sample.numbered (i0, []) =
       ((i1, [1]), Ret (Some [ErrExt "constructor 1"]))
     ∧ initializer.init sample.numbered (i1, [1]) = ((i1, [1]), Ret None)).
Proof.
  split.
  - intros S F call i i1 s s1 r1 Hcache Hfirst.
    rewrite <- Hcache. by eapply init_again.
  - split; reflexivity.
Qed.

(** ** Registries *)

Section OnceFacts.
Context {S A : Type} (done : S → bool) (set_done : bool → S → S).
Context (zero : A) (body : M S A).

Lemma Once_Do_skip (s : S) :
  done s = true → Once_Do done set_done zero body s = (s, Ret zero).
Proof. unfold Once_Do. by intros ->. Qed.

Lemma Once_Do_marks (s s1 : S) (o : outcome A) :
  (∀ s0, done (set_done true s0) = true) →
  Once_Do done set_done zero body s = (s1, o) → done s1 = true.
Proof.
  intros Hset. unfold Once_Do. destruct (done s) eqn:Hdone.
  - by intros [= <- <-].
  - destruct (body s) as [s' o']. by intros [= <- <-].
Qed.

End OnceFacts.

Section RegistryFacts.
Context `{Collaborators}.

Lemma initGRPCClient_marks (cfg : config.Config) (s s1 : di.State)
    (o : outcome (option error)) :
  di.initGRPCClient cfg s = (s1, o) → di.gRPCClientOnce s1 = true.
Proof. by apply Once_Do_marks. Qed.

Lemma initGRPCClient_again (cfg : config.Config) (s : di.State) :
  di.gRPCClientOnce s = true → di.initGRPCClient cfg s = (s, Ret None).
Proof. apply Once_Do_skip. Qed.

Lemma initEnv_marks (cfg : config.Config) (s s1 : di.State)
    (o : outcome (option error)) :
  di.initEnv cfg s = (s1, o) → di.envOnce s1 = true.
Proof. by apply Once_Do_marks. Qed.

Lemma initEnv_again (cfg : config.Config) (s : di.State) :
  di.envOnce s = true → di.initEnv cfg s = (s, Ret None).
Proof. apply Once_Do_skip. Qed.

Lemma GRPCClient_returned (cfg : config.Config) (s s1 : di.State)
    (r1 : option entity_GRPCClient * option error) :
  di.GRPCClient cfg s = (s1, Ret r1) →
  di.gRPCClientOnce s1 = true
  ∧ (r1.2 = None → r1 = (di.gRPCClient s1, None)).
Proof.
  unfold di.GRPCClient, mbind, M_bind.
  destruct (di.initGRPCClient cfg s) as [s' [[err|]|]] eqn:Hinit; [| |done].
  - intros [= <- <-]. split; [by eapply initGRPCClient_marks|done].
  - intros [= <- <-]. split; [by eapply initGRPCClient_marks|done].
Qed.

Lemma Env_returned (cfg : config.Config) (s s1 : di.State)
    (r1 : option environment_Environment * option error) :
  di.Env cfg s = (s1, Ret r1) →
  di.envOnce s1 = true ∧ (r1.2 = None → r1 = (di.env s1, None)).
Proof.
  unfold di.Env, mbind, M_bind.
  destruct (di.initEnv cfg s) as [s' [[err|]|]] eqn:Hinit; [| |done].
  - intros [= <- <-]. split; [by eapply initEnv_marks|done].
  - intros [= <- <-]. split; [by eapply initEnv_marks|done].
Qed.

Lemma DynamicBuilder_returned (s s1 : di.State)
    (r1 : option protobuf_DynamicBuilder * option error) :
  di.DynamicBuilder s = (s1, Ret r1) →
  di.dynamicBuilderOnce s1 = true ∧ r1 = (di.dynamicBuilder s1, None).
Proof.
  unfold di.DynamicBuilder, di.initDynamicBuilder.
  set (once := Once_Do _ _ _ _). unfold mbind, M_bind.
  destruct (once s) as [s' [[]|]] eqn:Honce; [|done].
  intros [= <- <-]. split; [|done].
  by eapply Once_Do_marks in Honce.
Qed.

(** C1 (as the code has it). Once a call of [GRPCClient], [Env] or
    [DynamicBuilder] has returned, a later call, with any configuration,
    leaves every package variable and the record of constructor runs
    untouched, and returns the package variable with a nil error. When the
    first call returned no error that is the very pair the first call
    returned (always so for [DynamicBuilder], which cannot fail); the error
    of a failed first call is not returned again. *)
Theorem registry_get_after_first (cfg cfg' : config.Config) (s s1 : di.State) :
  (∀ r1, di.GRPCClient cfg s = (s1, Ret r1) →
     di.GRPCClient cfg' s1 = (s1, Ret (di.gRPCClient s1, None))
     ∧ (r1.2 = None → di.GRPCClient cfg' s1 = (s1, Ret r1)))
  ∧ (∀ r1, di.Env cfg s = (s1, Ret r1) →
       di.Env cfg' s1 = (s1, Ret (di.env s1, None))
       ∧ (r1.2 = None → di.Env cfg' s1 = (s1, Ret r1)))
  ∧ (∀ r1, di.DynamicBuilder s = (s1, Ret r1) →
       di.DynamicBuilder s1 = (s1, Ret r1)).
Proof.
  split_and!; intros r1 Hfirst.
  - apply GRPCClient_returned in Hfirst as [Honce Hsame].
    assert (di.GRPCClient cfg' s1 = (s1, Ret (di.gRPCClient s1, None))) as Hagain.
    { unfold di.GRPCClient, mbind, M_bind.
      by rewrite initGRPCClient_again. }
    split; [done|]. intros Hnil. by rewrite (Hsame Hnil).
  - apply Env_returned in Hfirst as [Honce Hsame].
    assert (di.Env cfg' s1 = (s1, Ret (di.env s1, None))) as Hagain.
    { unfold di.Env, mbind, M_bind. by rewrite initEnv_again. }
    split; [done|]. intros Hnil. by rewrite (Hsame Hnil).
  - apply DynamicBuilder_returned in Hfirst as [Honce ->].
    unfold di.DynamicBuilder, di.initDynamicBuilder, mbind, M_bind.
    by rewrite Once_Do_skip.
Qed.

End RegistryFacts.

Lemma registry_get_after_first_witness :
  let first := di.GRPCClient (H := sample.world sample.all_fine) sample.cfg di.fresh in
  di.GRPCClient (H := sample.world sample.all_fine) sample.cfg first.1 =
    (first.1, Ret (Some "localhost:50051", None)).
Proof.
  apply (proj2 (proj1 (@registry_get_after_first (sample.world sample.all_fine)
    sample.cfg sample.cfg di.fresh _) (Some "localhost:50051", None) eq_refl)).
  reflexivity.
Defined.

(** C1, where the claim fails: the dial fails, the first [GRPCClient] returns
    the error, the second returns neither error nor client; it does not run
    the constructor either. *)
Lemma GRPCClient_error_not_returned_again :
  let first := di.GRPCClient (H := sample.world sample.dial_down) sample.cfg di.fresh in
  let second := di.GRPCClient (H := sample.world sample.dial_down) sample.cfg first.1 in
  first.2 = Ret (None, Some sample.dial_error)
  ∧ second.2 = Ret (None, None)
  ∧ second.2 ≠ first.2
  ∧ di.trace second.1 = [di.EvConstruct di.RegGRPCClient].
Proof.
  split_and!; [vm_compute; reflexivity|vm_compute; reflexivity|
               discriminate|vm_compute; reflexivity].
Qed.

(** The same for [Env], whose constructor fails on the proto files. *)
Lemma Env_error_not_returned_again :
  let first := di.Env (H := sample.world sample.bad_proto) sample.cfg di.fresh in
  let second := di.Env (H := sample.world sample.bad_proto) sample.cfg first.1 in
  first.2 = Ret (None, Some sample.parse_file_error)
  ∧ second.2 = Ret (None, None)
  ∧ di.trace second.1 = [di.EvConstruct di.RegEnv].
Proof. split_and!; reflexivity. Qed.

(** A failure late in the constructor leaves the environment assigned, yet
    [Env] hands out nil with the error, and nil with no error afterwards
    only if the variable is nil: here the second call returns the
    half-selected environment. *)
Lemma Env_failed_service_selection :
  let first := di.Env (H := sample.world sample.bad_service) sample.cfg di.fresh in
  let second := di.Env (H := sample.world sample.bad_service) sample.cfg first.1 in
  first.2 =
    Ret (None,
         Some (ErrWrap sample.use_service_error
                 "failed to set service to env as a default service: Greeter"))
  ∧ second.2 = Ret (Some ["./protos"; "api.proto"], None).
Proof. split; vm_compute; reflexivity. Qed.

(** ** Cleanup of the interactor parameters *)

Section CleanupFacts.
Context `{Collaborators}.

(** C10. [Cleanup] with a nil [GRPCClient] field returns nil and closes
    nothing; with a client it closes that client once, with the context it
    was given, and returns what [Close] returned. *)
Theorem Cleanup_nil_safe (p : usecase.InteractorParams) (ctx : context_Context)
    (calls : list (entity_GRPCClient * context_Context)) :
  (usecase.GRPCClient p = None → usecase.Cleanup p ctx calls = (calls, Ret None))
  ∧ (∀ c, usecase.GRPCClient p = Some c →
       usecase.Cleanup p ctx calls = (calls ++ [(c, ctx)], Ret (Close c ctx))).
Proof.
  unfold usecase.Cleanup. split.
  - by intros ->.
  - by intros c ->.
Qed.

End CleanupFacts.

Lemma Cleanup_nil_safe_witness :
  usecase.Cleanup (sample.params None) () [] = ([], Ret None)
  ∧ usecase.Cleanup (sample.params (Some "stale")) () [] =
    ([("stale", ())], Ret (Some sample.close_error)).
Proof.
  split.
  - apply (proj1 (@Cleanup_nil_safe (sample.world sample.all_fine)
      (sample.params None) () [])).
    reflexivity.
  - apply (proj2 (@Cleanup_nil_safe (sample.world sample.all_fine)
      (sample.params (Some "stale")) () [])).
    reflexivity.
Defined.

(** ** What the constructors see and change *)

Section FrameFacts.
Context `{Collaborators}.

Lemma stable_ret {A} (P : di.State → Prop) (a : A) : di.stable P (mret a).
Proof. by intros s. Qed.

Lemma stable_panic {A} (P : di.State → Prop) : di.stable P (panic (A := A)).
Proof. by intros s. Qed.

Lemma stable_gets {A} (P : di.State → Prop) (proj : di.State → A) :
  di.stable P (gets proj).
Proof. by intros s. Qed.

Lemma stable_modify (P : di.State → Prop) (upd : di.State → di.State) :
  (∀ s, P s → P (upd s)) → di.stable P (modify upd).
Proof. intros Hupd s. apply Hupd. Qed.

Lemma stable_bind {A B} (P : di.State → Prop) (m : M di.State A)
    (k : A → M di.State B) :
  di.stable P m → (∀ a, di.stable P (k a)) → di.stable P (m ≫= k).
Proof.
  intros Hm Hk s HP. unfold mbind, M_bind. specialize (Hm s HP).
  destruct (m s) as [s1 [a|]]; [by apply Hk | done].
Qed.

Lemma stable_Once {A} (P : di.State → Prop) (done : di.State → bool)
    (set_done : bool → di.State → di.State) (zero : A) (body : M di.State A) :
  (∀ s, P s → P (set_done true s)) → di.stable P body →
  di.stable P (Once_Do done set_done zero body).
Proof.
  intros Hset Hbody s HP. unfold Once_Do. destruct (done s); [done|].
  specialize (Hbody s HP). destruct (body s) as [s1 o]. by apply Hset.
Qed.

Lemma determined_by_ret {V A} (view : di.State → V) (a : A) :
  di.determined_by view (mret a).
Proof. by intros s s'. Qed.

Lemma determined_by_panic {V A} (view : di.State → V) :
  di.determined_by view (panic (A := A)).
Proof. by intros s s'. Qed.

Lemma determined_by_gets {V A} (view : di.State → V) (proj : di.State → A) :
  (∀ s s', view s = view s' → proj s = proj s') →
  di.determined_by view (gets proj).
Proof. intros Hproj s s' Hv. simpl. by rewrite (Hproj s s'). Qed.

Lemma determined_by_modify {V} (view : di.State → V)
    (upd : di.State → di.State) :
  (∀ s s', view s = view s' → view (upd s) = view (upd s')) →
  di.determined_by view (modify upd).
Proof. intros Hupd s s' Hv. simpl. by split; [|apply Hupd]. Qed.

Lemma determined_by_bind {V A B} (view : di.State → V) (m : M di.State A)
    (k : A → M di.State B) :
  di.determined_by view m → (∀ a, di.determined_by view (k a)) →
  di.determined_by view (m ≫= k).
Proof.
  intros Hm Hk s s' Hv. unfold mbind, M_bind.
  destruct (Hm s s' Hv) as [Ho Hv1].
  destruct (m s) as [s1 o], (m s') as [s1' o']. simpl in *. subst o'.
  destruct o as [a|]; [by apply Hk | done].
Qed.

Lemma determined_by_Once {V A} (view : di.State → V) (done : di.State → bool)
    (set_done : bool → di.State → di.State) (zero : A) (body : M di.State A) :
  (∀ s s', view s = view s' → done s = done s') →
  (∀ s s', view s = view s' → view (set_done true s) = view (set_done true s')) →
  di.determined_by view body →
  di.determined_by view (Once_Do done set_done zero body).
Proof.
  intros Hdone Hset Hbody s s' Hv. unfold Once_Do.
  rewrite <- (Hdone s s' Hv). destruct (done s); [done|].
  destruct (Hbody s s' Hv) as [Ho Hv1].
  destruct (body s) as [s1 o], (body s') as [s1' o']. simpl in *.
  by split; [|apply Hset].
Qed.

End FrameFacts.

Section BuilderFacts.
Context `{Collaborators}.

Lemma builder_inv_initDynamicBuilder : di.stable di.builder_inv di.initDynamicBuilder.
Proof.
  intros s Hinv. unfold di.initDynamicBuilder, Once_Do, mbind, M_bind.
  destruct (di.dynamicBuilderOnce s) eqn:Hdone; simpl; [done|].
  by destruct s.
Qed.

End BuilderFacts.

Create HintDb di_calls.
#[global] Hint Unfold di.log di.DynamicBuilder di.initGRPCClient di.GRPCClient
  di.env_call di.initEnv_select di.initEnv di.Env di.initJSONCLIPresenter
  di.initJSONFileInputter di.initPromptInputter di.call : di_calls.

(** A side condition on the setters: the states are records, the views and
    properties are read off their fields. *)
Ltac fields :=
  intros;
  repeat match goal with s : di.State |- _ => destruct s end;
  unfold di.components_view, di.built_view, di.env_view, di.client_view,
    di.builder_inv in *;
  destruct_and?; simplify_eq/=; split_and?; try done; try (by eauto).

(** Take a constructor apart along its binds and its case distinctions. *)
Ltac frame_step :=
  lazymatch goal with
  | |- ∀ _, _ => intro
  | |- di.stable _ (mret _) => apply stable_ret
  | |- di.stable _ panic => apply stable_panic
  | |- di.stable _ (gets _) => apply stable_gets
  | |- di.stable _ (modify _) => apply stable_modify
  | |- di.stable _ (_ ≫= _) => apply stable_bind
  | |- di.stable _ (Once_Do _ _ _ _) => apply stable_Once
  | |- di.stable di.builder_inv di.initDynamicBuilder =>
      apply builder_inv_initDynamicBuilder
  | |- di.stable _ di.initDynamicBuilder => unfold di.initDynamicBuilder
  | |- di.stable _ _ => first [case_match | progress autounfold with di_calls]
  | |- di.determined_by _ (mret _) => apply determined_by_ret
  | |- di.determined_by _ panic => apply determined_by_panic
  | |- di.determined_by _ (gets _) => apply determined_by_gets
  | |- di.determined_by _ (modify _) => apply determined_by_modify
  | |- di.determined_by _ (_ ≫= _) => apply determined_by_bind
  | |- di.determined_by _ (Once_Do _ _ _ _) => apply determined_by_Once
  | |- di.determined_by _ di.initDynamicBuilder => unfold di.initDynamicBuilder
  | |- di.determined_by _ _ => first [case_match | progress autounfold with di_calls]
  end.

Ltac frame := repeat frame_step; fields.

Section ViewFacts.
Context `{Collaborators}.

Lemma initGRPCClient_determined (cfg : config.Config) :
  di.determined_by di.client_view (di.initGRPCClient cfg).
Proof. frame. Qed.

Lemma initEnv_determined (cfg : config.Config) :
  di.determined_by di.env_view (di.initEnv cfg).
Proof. frame. Qed.

Lemma call_determined (fn : di.ctor) :
  di.determined_by di.components_view (di.call fn).
Proof. destruct fn; frame. Qed.

Lemma init_loop_determined (fs : list di.ctor)
    (result : option multierror.Error) :
  di.determined_by di.components_view (initializer.init_loop di.call fs result).
Proof.
  revert result. induction fs as [|fn fs IH]; intros result; simpl.
  - apply determined_by_ret.
  - apply determined_by_bind; [apply call_determined|].
    intros [err|]; apply IH.
Qed.

Lemma init_determined (i : initializer.t di.ctor) (s s' : di.State) :
  di.components_view s = di.components_view s' →
  (initializer.init di.call (i, s)).2 = (initializer.init di.call (i, s')).2
  ∧ (initializer.init di.call (i, s)).1.1 = (initializer.init di.call (i, s')).1.1
  ∧ di.components_view (initializer.init di.call (i, s)).1.2 =
      di.components_view (initializer.init di.call (i, s')).1.2.
Proof.
  intros Hview. rewrite !init_unfold. destruct (initializer.done i); [done|].
  destruct (init_loop_determined (initializer.f i) None s s' Hview) as [Hout Hv].
  destruct (initializer.init_loop _ _ _ s), (initializer.init_loop _ _ _ s').
  done.
Qed.

End ViewFacts.

(** ** The first run of the registered constructors *)

Section FirstRun.
Context `{Collaborators}.

Lemma GRPCClient_state (cfg : config.Config) (s : di.State) :
  (di.GRPCClient cfg s).1 = (di.initGRPCClient cfg s).1.
Proof.
  unfold di.GRPCClient, mbind, M_bind.
  by destruct (di.initGRPCClient cfg s) as [s1 [[err|]|]].
Qed.

Lemma GRPCClient_failed (cfg : config.Config) (s : di.State) (e : error) :
  (di.initGRPCClient cfg s).2 = Ret (Some e) →
  (di.GRPCClient cfg s).2 = Ret (None, Some e).
Proof.
  unfold di.GRPCClient, mbind, M_bind.
  destruct (di.initGRPCClient cfg s) as [s1 o]. simpl. by intros ->.
Qed.

Lemma Env_unfold (cfg : config.Config) (s : di.State) :
  di.Env cfg s =
    match di.initEnv cfg s with
    | (s1, Ret (Some err)) => (s1, Ret (None, Some err))
    | (s1, Ret None) => (s1, Ret (di.env s1, None))
    | (s1, Panic) => (s1, Panic)
    end.
Proof.
  unfold di.Env, mbind, M_bind.
  by destruct (di.initEnv cfg s) as [s1 [[err|]|]].
Qed.

Lemma initPromptInputter_first (cfg : config.Config) (s : di.State) :
  di.promptInputterOnce s = false →
  di.initPromptInputter cfg s =
    match di.Env cfg
            (di.set_trace (di.trace s ++ [di.EvConstruct di.RegPromptInputter]) s)
    with
    | (s1, Ret (e, err)) =>
        (di.set_promptInputterOnce true
           (di.set_promptInputter
              (Some (inputter_NewPrompt (config.PromptFormat (config.Input cfg)) e))
              s1),
         Ret err)
    | (s1, Panic) => (di.set_promptInputterOnce true s1, Panic)
    end.
Proof.
  intros Honce. unfold di.initPromptInputter, Once_Do. rewrite Honce.
  unfold di.log, mbind, M_bind. simpl.
  by destruct (di.Env cfg _) as [s1 [[e err]|]].
Qed.

(** The environment either leaves the client registry as it found it or
    leaves it as building the client leaves it. *)
Lemma initEnv_client_view (cfg : config.Config) (s : di.State) :
  di.envOnce s = false →
  di.client_view (di.initEnv cfg s).1 = di.client_view s
  ∨ di.client_view (di.initEnv cfg s).1 =
      di.client_view (di.initGRPCClient cfg s).1.
Proof.
  intros Honce. unfold di.initEnv, Once_Do. rewrite Honce.
  unfold di.log, mbind, M_bind. simpl.
  set (sl := di.set_trace _ s).
  assert (di.client_view sl = di.client_view s) as Hsl by (by destruct s).
  destruct (di.resolveProtoPaths cfg) as [paths|err]; simpl.
  2: { left. rewrite <- Hsl. by destruct sl. }
  destruct (protobuf_ParseFile _ paths) as [desc|err]; simpl.
  2: { left. rewrite <- Hsl. by destruct sl. }
  right.
  destruct (initGRPCClient_determined cfg sl s Hsl) as [_ <-].
  rewrite <- GRPCClient_state.
  destruct (di.GRPCClient cfg sl) as [sg [[g [err|]]|]]; simpl;
    [by destruct sg| |by destruct sg].
  assert (di.stable (λ s0, di.client_view s0 = di.client_view sg)
            (di.initEnv_select cfg desc g)) as Hkeep by frame.
  specialize (Hkeep sg eq_refl).
  destruct (di.initEnv_select cfg desc g sg) as [s1 o]. simpl in *.
  rewrite <- Hkeep. by destruct s1.
Qed.

(** When only the client fails, the environment fails with the error of the
    client and is left nil. *)
Lemma initEnv_client_failure (cfg : config.Config) (e : error) (s : di.State) :
  di.client_fails_alone cfg e →
  di.env_view s = di.env_view di.fresh →
  ∃ s1, di.initEnv cfg s = (s1, Ret (Some e))
        ∧ di.env s1 = None ∧ di.gRPCClientOnce s1 = true.
Proof.
  intros (Hfail & paths & desc & Hpaths & Hdesc) Hview.
  assert (di.envOnce s = false ∧ di.env s = None) as [Honce Henv]
    by (by destruct s; simplify_eq/=).
  unfold di.initEnv, Once_Do. rewrite Honce, Hpaths, Hdesc.
  unfold di.log, mbind, M_bind. simpl.
  set (sl := di.set_trace _ s).
  assert (di.client_view sl = di.client_view di.fresh) as Hsl
    by (by destruct s; simplify_eq/=).
  destruct (initGRPCClient_determined cfg sl di.fresh Hsl) as [Hout _].
  rewrite Hfail in Hout. apply GRPCClient_failed in Hout as Hget.
  assert (di.stable (λ s0, di.env s0 = None) (di.initGRPCClient cfg)) as Hkeep
    by frame.
  specialize (Hkeep sl). rewrite <- GRPCClient_state in Hkeep.
  pose proof (initGRPCClient_marks cfg sl) as Hmark.
  rewrite (surjective_pairing (di.initGRPCClient cfg sl)) in Hmark.
  specialize (Hmark _ _ eq_refl). rewrite <- GRPCClient_state in Hmark.
  destruct (di.GRPCClient cfg sl) as [sg og]. simpl in *. subst og.
  eexists. split; [done|]. split.
  - destruct sg; simpl in *. apply Hkeep. by destruct s.
  - by destruct sg.
Qed.

Lemma stable_at {A} (P : di.State → Prop) (m : M di.State A) (s s1 : di.State)
    (o : outcome A) :
  di.stable P m → m s = (s1, o) → P s → P s1.
Proof. intros Hm Hrun HP. specialize (Hm s HP). by rewrite Hrun in Hm. Qed.

Lemma initDynamicBuilder_builds (s : di.State) :
  di.builder_inv s →
  ∃ s1, di.initDynamicBuilder s = (s1, Ret None)
        ∧ di.dynamicBuilder s1 = Some protobuf_NewDynamicBuilder.
Proof.
  intros Hinv. unfold di.initDynamicBuilder, Once_Do, mbind, M_bind.
  destruct (di.dynamicBuilderOnce s) eqn:Hdone; simpl; eauto.
Qed.

(** The run of the six constructors when one construction fails. *)
Lemma first_run_single_failure (cfg : config.Config) (in_ : io_Reader) (e : error) :
  di.client_fails_alone cfg e ∨ di.env_fails_alone cfg e →
  ∃ s1,
    initializer.runs_in_order di.call (di.registered cfg in_) di.fresh
      [None; Some e; None; None; None; None] s1
    ∧ di.jsonFileInputter s1 = Some (inputter_NewJSONFile in_)
    ∧ di.jsonCLIPresenter s1 = Some presenter_NewJSONWithIndent
    ∧ di.dynamicBuilder s1 = Some protobuf_NewDynamicBuilder
    ∧ di.promptInputter s1 =
        Some (inputter_NewPrompt (config.PromptFormat (config.Input cfg)) None)
    ∧ (di.client_fails_alone cfg e → di.env s1 = None)
    ∧ (di.env_fails_alone cfg e →
         di.gRPCClient s1 = di.gRPCClient (di.initGRPCClient cfg di.fresh).1).
Proof.
  intros Hcase.
  (* the file inputter *)
  set (sA := (di.initJSONFileInputter in_ di.fresh).1).
  assert (di.call (di.fn_initJSONFileInputter in_) di.fresh = (sA, Ret None))
    as HA by reflexivity.
  (* the prompt inputter, which builds the environment *)
  set (sA' := di.set_trace (di.trace sA ++ [di.EvConstruct di.RegPromptInputter]) sA).
  assert (di.env_view sA' = di.env_view di.fresh) as HvA by reflexivity.
  assert (∃ sE, di.initEnv cfg sA' = (sE, Ret (Some e))
                ∧ (di.client_fails_alone cfg e →
                     di.env sE = None ∧ di.gRPCClientOnce sE = true))
    as (sE & HE & HEc).
  { destruct Hcase as [Hc|[Hg He]].
    - destruct (initEnv_client_failure cfg e sA' Hc HvA) as (s1 & ? & ? & ?).
      eauto.
    - destruct (initEnv_determined cfg sA' di.fresh HvA) as [Hout _].
      rewrite He in Hout. destruct (di.initEnv cfg sA') as [sE o].
      simpl in Hout. subst o. eexists. split; [done|].
      intros [Hg' _]. congruence. }
  set (fmt := config.PromptFormat (config.Input cfg)).
  set (sB := di.set_promptInputterOnce true
               (di.set_promptInputter (Some (inputter_NewPrompt fmt None)) sE)).
  assert (di.call (di.fn_initPromptInputter cfg) sA = (sB, Ret (Some e))) as HB.
  { simpl. rewrite initPromptInputter_first by done. fold sA'.
    by rewrite Env_unfold, HE. }
  pose proof (initEnv_marks _ _ _ _ HE) as HEonce.
  set (kept := λ s : di.State,
         di.jsonFileInputter s = Some (inputter_NewJSONFile in_)
         ∧ di.jsonCLIPresenterOnce s = false).
  assert (kept sB ∧ di.builder_inv sB) as [HkB HbB].
  { assert (di.stable kept (di.initEnv cfg)) as Hkeep by (unfold kept; frame).
    assert (di.stable di.builder_inv (di.initEnv cfg)) as Hinv by frame.
    assert (kept sA') as HkA by done.
    assert (di.builder_inv sA') as HbA by done.
    apply (stable_at _ _ _ _ _ Hkeep HE) in HkA.
    apply (stable_at _ _ _ _ _ Hinv HE) in HbA.
    unfold kept in *. by destruct sE. }
  (* the client *)
  assert (∃ sC, di.initGRPCClient cfg sB = (sC, Ret None)
                ∧ (di.env_fails_alone cfg e →
                     di.gRPCClient sC =
                       di.gRPCClient (di.initGRPCClient cfg di.fresh).1))
    as (sC & HC & HCc).
  { destruct Hcase as [Hc|[Hg He]].
    - destruct (HEc Hc) as [_ Honce].
      rewrite initGRPCClient_again by (by destruct sE).
      eexists. split; [done|]. intros [Hg' _].
      destruct Hc as [Hc _]. congruence.
    - destruct (initEnv_client_view cfg sA' eq_refl) as [Hsame|Hbuilt];
        rewrite HE in *; simpl in *.
      + assert (di.client_view sB = di.client_view di.fresh) as HvB.
        { transitivity (di.client_view sE); [by destruct sE|]. by rewrite Hsame. }
        destruct (initGRPCClient_determined cfg sB di.fresh HvB) as [Hout Hv].
        rewrite Hg in Hout. destruct (di.initGRPCClient cfg sB) as [sC o].
        simpl in *. subst o. eexists. split; [done|]. intros _.
        unfold di.client_view in Hv. by simplify_eq.
      + destruct (initGRPCClient_determined cfg sA' di.fresh eq_refl) as [_ Hv].
        rewrite Hv in Hbuilt.
        pose proof (initGRPCClient_marks cfg di.fresh) as Hmark.
        rewrite (surjective_pairing (di.initGRPCClient cfg di.fresh)) in Hmark.
        specialize (Hmark _ _ eq_refl).
        assert (di.gRPCClientOnce sB = true
                ∧ di.gRPCClient sB =
                    di.gRPCClient (di.initGRPCClient cfg di.fresh).1) as [Honce Hcl].
        { unfold di.client_view in Hbuilt. destruct sE. simpl in *.
          by simplify_eq. }
        rewrite initGRPCClient_again by done. eauto. }
  set (keptC := λ s : di.State,
         kept s ∧ di.envOnce s = true ∧ di.env s = di.env sE
         ∧ di.promptInputter s = Some (inputter_NewPrompt fmt None)).
  assert (keptC sC ∧ di.builder_inv sC)
    as [([HfileC HpresC] & HonceC & HenvC & HpC) HbC].
  { assert (di.stable keptC (di.initGRPCClient cfg)) as Hkeep
      by (unfold keptC, kept; frame).
    assert (di.stable di.builder_inv (di.initGRPCClient cfg)) as Hinv by frame.
    split; [|by apply (stable_at _ _ _ _ _ Hinv HC)].
    apply (stable_at _ _ _ _ _ Hkeep HC).
    unfold keptC, kept in *. by destruct sE. }
  (* the environment again, the presenter, the builder *)
  assert (di.call (di.fn_initEnv cfg) sC = (sC, Ret None)) as HD
    by (by apply initEnv_again).
  set (sP := di.set_jsonCLIPresenterOnce true
               (di.set_jsonCLIPresenter (Some presenter_NewJSONWithIndent)
                  (di.set_trace
                     (di.trace sC ++ [di.EvConstruct di.RegJSONCLIPresenter]) sC))).
  assert (di.call di.fn_initJSONCLIPresenter sC = (sP, Ret None)) as HP.
  { unfold di.call, di.initJSONCLIPresenter, Once_Do, mbind, M_bind.
    by rewrite HpresC. }
  destruct (initDynamicBuilder_builds sP) as (sF & HF & HbF).
  { by destruct sC. }
  set (keptF := λ s : di.State,
         di.jsonFileInputter s = Some (inputter_NewJSONFile in_)
         ∧ di.jsonCLIPresenter s = Some presenter_NewJSONWithIndent
         ∧ di.promptInputter s = Some (inputter_NewPrompt fmt None)
         ∧ di.env s = di.env sE ∧ di.gRPCClient s = di.gRPCClient sC).
  assert (keptF sF) as (HF1 & HF2 & HF3 & HF4 & HF5).
  { assert (di.stable keptF di.initDynamicBuilder) as Hkeep
      by (unfold keptF; frame).
    apply (stable_at _ _ _ _ _ Hkeep HF).
    unfold keptF. by destruct sC. }
  exists sF. split_and!; try done.
  - repeat (econstructor; [eassumption|]). constructor.
  - intros Hc. rewrite HF4. by apply HEc.
  - intros He. rewrite HF5. by apply HCc.
Qed.

End FirstRun.

(** ** The whole of [initDependencies] *)

Section InitDependenciesFacts.
Context `{Collaborators}.

(** The state in which the first [initDependencies] calls [init]. *)
Lemma initDependencies_first (cfg : config.Config) (in_ : io_Reader) :
  di.initDependencies cfg in_ di.fresh =
    match initializer.init di.call
            (di.registered_initer cfg in_,
             di.set_initerOnce true
               (di.set_initer (Some (di.registered_initer cfg in_)) di.fresh))
    with
    | ((i1, s1), Ret (Some err)) =>
        match di.gRPCClient s1 with
        | Some c =>
            (di.set_trace (di.trace s1 ++ [di.EvClose c context_Background])
               (di.set_initer (Some i1) s1),
             Ret (Some err))
        | None => (di.set_initer (Some i1) s1, Panic)
        end
    | ((i1, s1), Ret None) => (di.set_initer (Some i1) s1, Ret None)
    | ((i1, s1), Panic) => (di.set_initer (Some i1) s1, Panic)
    end.
Proof.
  unfold di.initDependencies, di.on_initer, Once_Do, di.log, mbind, M_bind.
  simpl.
  destruct (initializer.init _ _) as [[i1 s1] [[err|]|]]; simpl; [|done..].
  destruct s1 as [? ? ? ? ? ? ? ? [c|] ? ? ? ? ? ?]; done.
Qed.

(** The orchestrator is not among the things its constructors look at. *)
Lemma init_from_fresh (cfg : config.Config) (in_ : io_Reader) (s0 : di.State) :
  di.components_view s0 = di.components_view di.fresh →
  (initializer.init di.call (di.registered_initer cfg in_, s0)).2 =
    (initializer.init di.call (di.registered_initer cfg in_, di.fresh)).2
  ∧ (initializer.init di.call (di.registered_initer cfg in_, s0)).1.1 =
    (initializer.init di.call (di.registered_initer cfg in_, di.fresh)).1.1
  ∧ di.components_view
      (initializer.init di.call (di.registered_initer cfg in_, s0)).1.2 =
    di.components_view
      (initializer.init di.call (di.registered_initer cfg in_, di.fresh)).1.2.
Proof. apply init_determined. Qed.

(** What [initDependencies] does once the first [init] has returned an
    aggregate: with a client it closes the client and returns the aggregate;
    without one it panics on the call of [Close]. *)
Lemma initDependencies_cleanup (cfg : config.Config) (in_ : io_Reader)
    (s1 : di.State) (i1 : initializer.t di.ctor) (err : multierror.Error) :
  initializer.init di.call (di.registered_initer cfg in_, di.fresh) =
    ((i1, s1), Ret (Some err)) →
  ∃ s2 o,
    di.initDependencies cfg in_ di.fresh = (s2, o)
    ∧ di.built_view s2 = di.built_view s1
    ∧ match di.gRPCClient s1 with
      | Some c =>
          o = Ret (Some err)
          ∧ di.trace s2 = di.trace s1 ++ [di.EvClose c context_Background]
      | None => o = Panic ∧ di.trace s2 = di.trace s1
      end.
Proof.
  intros Hinit. rewrite initDependencies_first.
  destruct (init_from_fresh cfg in_
    (di.set_initerOnce true
       (di.set_initer (Some (di.registered_initer cfg in_)) di.fresh)) eq_refl)
    as (Hout & Hrecv & Hview).
  rewrite Hinit in Hout, Hrecv, Hview.
  destruct (initializer.init _ (_, di.set_initerOnce _ _)) as [[i1' s1'] o'].
  simpl in Hout, Hrecv, Hview. subst o' i1'.
  assert (di.gRPCClient s1' = di.gRPCClient s1
          ∧ di.built_view s1' = di.built_view s1
          ∧ di.trace s1' = di.trace s1) as (Hc & Hb & Ht).
  { unfold di.components_view, di.env_view, di.client_view, di.built_view in *.
    destruct s1, s1'. simpl in *. by simplify_eq. }
  rewrite Hc. destruct (di.gRPCClient s1) as [c|]; eexists _, _;
    (split; [done|]); rewrite <- Hb, <- Ht; by destruct s1'.
Qed.

(** C5 (as the code has it). Let exactly one construction fail, with error
    [e]: either the gRPC client, or the environment while the client can be
    built. Then the first run of the registered constructors returns the
    aggregate of that single error. The components that do not depend on the
    failed one are built: the JSON file inputter, the JSON presenter and the
    message builder, and the client as it is built alone when the
    environment is the one that fails. The dependants are not: the prompt
    inputter is built over a nil environment, and the environment stays nil
    when the client is the one that fails. Where a client exists,
    [initDependencies] closes it and returns this aggregate. *)
Theorem single_failure_first_run (cfg : config.Config) (in_ : io_Reader)
    (e : error) :
  di.client_fails_alone cfg e ∨ di.env_fails_alone cfg e →
  ∃ s1,
    initializer.init di.call (di.registered_initer cfg in_, di.fresh) =
      ((initializer.mk (di.registered cfg in_) None true, s1), Ret (Some [e]))
    ∧ di.jsonFileInputter s1 = Some (inputter_NewJSONFile in_)
    ∧ di.jsonCLIPresenter s1 = Some presenter_NewJSONWithIndent
    ∧ di.dynamicBuilder s1 = Some protobuf_NewDynamicBuilder
    ∧ di.promptInputter s1 =
        Some (inputter_NewPrompt (config.PromptFormat (config.Input cfg)) None)
    ∧ (di.client_fails_alone cfg e → di.env s1 = None)
    ∧ (di.env_fails_alone cfg e →
         di.gRPCClient s1 = di.gRPCClient (di.initGRPCClient cfg di.fresh).1)
    ∧ (∀ c, di.gRPCClient s1 = Some c →
         ∃ s2, di.initDependencies cfg in_ di.fresh = (s2, Ret (Some [e]))
               ∧ di.built_view s2 = di.built_view s1
               ∧ di.trace s2 = di.trace s1 ++ [di.EvClose c context_Background]).
Proof.
  intros Hcase.
  destruct (first_run_single_failure cfg in_ e Hcase)
    as (s1 & Hruns & Hfile & Hpres & Hbuilder & Hprompt & Henv & Hclient).
  apply (init_runs di.call (di.registered_initer cfg in_)) in Hruns as Hinit;
    [|done].
  exists s1. split_and!; try done.
  intros c Hc.
  destruct (initDependencies_cleanup cfg in_ _ _ _ Hinit) as (s2 & o & Hdep & Hb & Hend).
  rewrite Hc in Hend. destruct Hend as [-> Htrace]. eauto.
Qed.

End InitDependenciesFacts.

Lemma single_failure_first_run_witness :
  ∃ s2,
    di.initDependencies (H := sample.world sample.bad_proto) sample.cfg 7 di.fresh =
      (s2, Ret (Some [sample.parse_file_error]))
    ∧ di.gRPCClient s2 = Some "localhost:50051"
    ∧ di.jsonFileInputter s2 = Some 7.
Proof.
  destruct (@single_failure_first_run (sample.world sample.bad_proto)
    sample.cfg 7 sample.parse_file_error) as (s1 & Hinit & Hfile & _ & _ & _ & _ & Hcl & Hdep).
  { right. split; vm_compute; reflexivity. }
  assert (di.gRPCClient s1 = Some "localhost:50051") as Hc.
  { rewrite Hcl; [vm_compute; reflexivity | split; vm_compute; reflexivity]. }
  destruct (Hdep "localhost:50051" Hc) as (s2 & Hrun & Hb & _).
  exists s2. split; [exact Hrun|].
  unfold di.built_view in Hb. injection Hb as _ Hc2 _ Hf _ _.
  rewrite Hc2, Hf, Hfile, Hc. split; reflexivity.
Defined.

(** C5, where the claim fails: only the dial of the gRPC client fails; the
    first run returns one error, yet the environment, which is not the
    component that failed, is not built, and [initDependencies] itself does
    not return. *)
Lemma client_failure_leaves_env_unbuilt :
  let run :=
    initializer.init (di.call (H := sample.world sample.dial_down))
      (di.registered_initer (H := sample.world sample.dial_down) sample.cfg 7,
       di.fresh) in
  di.client_fails_alone (H := sample.world sample.dial_down)
    sample.cfg sample.dial_error
  ∧ run.2 = Ret (Some [sample.dial_error])
  ∧ run.1.1 =
      initializer.mk
        (di.registered (H := sample.world sample.dial_down) sample.cfg 7)
        None true
  ∧ di.env run.1.2 = None
  ∧ di.gRPCClient run.1.2 = None
  ∧ (di.initDependencies (H := sample.world sample.dial_down) sample.cfg 7
       di.fresh).2 = Panic.
Proof.
  split_and!; try (vm_compute; reflexivity).
  split; [vm_compute; reflexivity|]. eexists _, _. split; vm_compute; reflexivity.
Qed.

(** C3 (the code departs from it). Whenever the first run of the
    constructors returns an aggregate and leaves no client,
    [initDependencies] calls [Close] on the nil client and panics instead of
    returning the aggregate. So it is when the dial fails: the aggregate
    holds the dial error, no client exists, the call panics, and the record
    of the run shows the six constructors and no [Close]. *)
Theorem initDependencies_closes_nil_client :
  (∀ (H : Collaborators) (cfg : config.Config) (in_ : io_Reader)
     (s1 : di.State) (i1 : initializer.t di.ctor) (err : multierror.Error),
     initializer.init di.call (di.registered_initer cfg in_, di.fresh) =
       ((i1, s1), Ret (Some err)) →
     di.gRPCClient s1 = None →
     (di.initDependencies cfg in_ di.fresh).2 = Panic)
  ∧ (let run :=
       di.initDependencies (H := sample.world sample.dial_down) sample.cfg 7
         di.fresh in
     (initializer.init (di.call (H := sample.world sample.dial_down))
        (di.registered_initer (H := sample.world sample.dial_down) sample.cfg 7,
         di.fresh)).2 =
       Ret (Some [sample.dial_error])
     ∧ (initializer.init (di.call (H := sample.world sample.dial_down))
          (di.registered_initer (H := sample.world sample.dial_down) sample.cfg 7,
           di.fresh)).1.1 =
         initializer.mk
           (di.registered (H := sample.world sample.dial_down) sample.cfg 7)
           None true
     ∧ di.gRPCClient run.1 = None
     ∧ run.2 = Panic
     ∧ di.trace run.1 =
         [ di.EvConstruct di.RegJSONFileInputter;
           di.EvConstruct di.RegPromptInputter;
           di.EvConstruct di.RegEnv;
           di.EvConstruct di.RegGRPCClient;
           di.EvConstruct di.RegJSONCLIPresenter;
           di.EvConstruct di.RegDynamicBuilder ]).
Proof.
  split.
  - intros H cfg in_ s1 i1 err Hinit Hnil.
    destruct (initDependencies_cleanup cfg in_ s1 i1 err Hinit)
      as (s2 & o & Hdep & _ & Hend).
    rewrite Hnil in Hend. rewrite Hdep. apply Hend.
  - split_and!; vm_compute; reflexivity.
Qed.

(** The part of C3 the code does keep: a client that was built is closed,
    once, and the aggregate is returned. *)
Lemma initDependencies_closes_built_client :
  let run :=
    di.initDependencies (H := sample.world sample.bad_proto) sample.cfg 7
      di.fresh in
  run.2 = Ret (Some [sample.parse_file_error])
  ∧ di.gRPCClient run.1 = Some "localhost:50051"
  ∧ di.trace run.1 =
      [ di.EvConstruct di.RegJSONFileInputter;
        di.EvConstruct di.RegPromptInputter;
        di.EvConstruct di.RegEnv;
        di.EvConstruct di.RegGRPCClient;
        di.EvConstruct di.RegJSONCLIPresenter;
        di.EvConstruct di.RegDynamicBuilder;
        di.EvClose (H := sample.world sample.bad_proto) "localhost:50051" () ].
Proof. split_and!; vm_compute; reflexivity. Qed.

(** C2 again, on [initDependencies] itself: after a first call that failed
    on the proto files, the second call reports success. *)
Lemma initDependencies_second_call_succeeds :
  let first :=
    di.initDependencies (H := sample.world sample.bad_proto) sample.cfg 7
      di.fresh in
  let second :=
    di.initDependencies (H := sample.world sample.bad_proto) sample.cfg 7
      first.1 in
  first.2 = Ret (Some [sample.parse_file_error])
  ∧ second.2 = Ret None
  ∧ di.trace second.1 = di.trace first.1.
Proof. split_and!; vm_compute; reflexivity. Qed.

(** ** Concurrent callers *)

Section ConcurrentFacts.
Context {V : Type} (built : option V * option error).

Lemma inv_start (n : nat) : concurrent.inv built (concurrent.start n).
Proof.
  split.
  - unfold concurrent.global_inv. simpl. split_and!; try done; try lia.
    intros j k gj gk Hj _ Hr. apply lookup_replicate in Hj as [-> _]. done.
  - intros i g Hi. apply lookup_replicate in Hi as [-> _].
    unfold concurrent.local_inv. simpl. by split_and!.
Qed.

Lemma lookup_insert_self (ts : list (concurrent.goroutine (V := V))) i g g' :
  ts !! i = Some g → <[i := g']> ts !! i = Some g'.
Proof. intros Hi. apply list_lookup_insert_eq. by eapply lookup_lt_Some. Qed.

(** A property some goroutine has is kept by a step of goroutine [i] when
    the step keeps it for [i]. *)
Lemma exists_after_insert (P : concurrent.goroutine (V := V) → Prop)
    (ts : list concurrent.goroutine) i g g' :
  ts !! i = Some g → (P g → P g') →
  (∃ j gj, ts !! j = Some gj ∧ P gj) →
  ∃ j gj, <[i := g']> ts !! j = Some gj ∧ P gj.
Proof.
  intros Hi Hkeep (j & gj & Hj & HP). destruct (decide (j = i)) as [->|Hne].
  - exists i, g'. split; [by eapply lookup_insert_self|]. apply Hkeep. congruence.
  - exists j, gj. by rewrite list_lookup_insert_ne.
Qed.

Lemma inv_step (c c' : concurrent.state) :
  concurrent.inv built c → concurrent.step built c c' → concurrent.inv built c'.
Proof.
  intros [Hg Hl] [i Hstep]. destruct c as [sh ts].
  unfold concurrent.step_thread in Hstep. simpl in *.
  destruct (ts !! i) as [g|] eqn:Hi; simplify_eq/=.
  destruct (concurrent.step_of built i g sh) as [[g' sh']|] eqn:Hs; simplify_eq/=.
  pose proof (Hl i g Hi) as Hli.
  pose proof (lookup_insert_self ts i g g' Hi) as Hi'.
  unfold concurrent.step_of in Hs.
  destruct g as [p e r res], sh as [d mu v k]; simpl in *.
  destruct Hg as (G1 & G2 & G3 & G4 & G5 & G6). simpl in *.
  unfold concurrent.local_inv in Hli. simpl in Hli.
  destruct Hli as [Lran Lat].
  assert (p = concurrent.Locked → d = false → k = 0) as Hfirst.
  { intros -> ->. destruct (decide (k = 0)) as [|Hk]; [done|].
    destruct G3 as [|(j & gj & Hj & Hat)]; [lia|done|].
    destruct (Hl j gj Hj) as [_ Hlj]. simpl in *. destruct Lat as (Hmu & _).
    assert (j = i) as -> by (destruct Hat as [Hat|Hat]; rewrite Hat in Hlj;
                             destruct Hlj as [? _]; congruence).
    rewrite Hi in Hj. simplify_eq/=. by destruct Hat. }
  destruct p, d, mu; simplify_eq/=; destruct_and?; simplify_eq/=.
  all: try (specialize (Hfirst eq_refl eq_refl); subst k).
  all: split.
  all: try (intros j gj Hj; simpl in Hj;
            apply list_lookup_insert_Some in Hj as [(<- & <- & Hlt)|(Hne & Hj)];
            [ unfold concurrent.local_inv, concurrent.outcome_of; simpl;
              split_and!; try done; try congruence; try (by intros [= <-])
            | destruct (Hl j gj Hj) as [Hr Hat]; destruct gj as [pj ej rj resj];
              unfold concurrent.local_inv; simpl in *;
              split; [try done; try (intros Hrj; specialize (Hr Hrj); lia)
                     | destruct pj; destruct_and?; split_and?; try done; try congruence ] ]).
  all: try (unfold concurrent.global_inv; simpl; split_and!;
            [ try done; try lia
            | try done; try (intros; split; [lia|done]); try (by intros [=])
            | try (intros; by left);
              try (intros Hk; destruct (G3 Hk) as [|Hex]; [done|];
                   right; eapply exists_after_insert; [done| |done]; simpl;
                   intros [|]; simplify_eq; by eauto);
              try (intros _; right; eexists i, _; split; [done|]; simpl; by eauto)
            | try (intros Hk; eapply exists_after_insert; [done| |by eauto]; simpl; done);
              try (intros _; eexists i, _; split; [done|]; simpl; by eauto)
            | intros j Hmj; rewrite length_insert;
              try (by apply G5); try (simplify_eq; by eapply lookup_lt_Some)
            | intros j1 j2 g1 g2 H1 H2 Hr1 Hr2;
              apply list_lookup_insert_Some in H1 as [(<- & <- & ?)|(? & H1)];
              apply list_lookup_insert_Some in H2 as [(<- & <- & ?)|(? & H2)];
              simpl in *; try done;
              try (by eapply G6; [exact H1|exact H2|done..]);
              try (by eapply G6; [exact Hi|exact H2|done..]);
              try (by eapply G6; [exact H1|exact Hi|done..]);
              try (destruct (Hl _ _ H1) as [Hk1 _]; specialize (Hk1 Hr1); simpl in Hk1; lia);
              try (destruct (Hl _ _ H2) as [Hk2 _]; specialize (Hk2 Hr2); simpl in Hk2; lia) ]).
  all: by destruct (G2 eq_refl) as [_ ->].
Qed.

Lemma inv_reachable (n : nat) (c : concurrent.state) :
  concurrent.reachable built n c → concurrent.inv built c.
Proof.
  unfold concurrent.reachable. revert c. apply rtc_ind_r.
  - apply inv_start.
  - intros c c' _ Hstep IH. by eapply inv_step.
Qed.

Lemma step_length (c c' : concurrent.state) :
  concurrent.step built c c' → length c'.2 = length c.2.
Proof.
  intros [i Hstep]. unfold concurrent.step_thread in Hstep.
  destruct (c.2 !! i) as [g|]; simplify_eq/=.
  destruct (concurrent.step_of built i g c.1) as [[g' sh']|]; simplify_eq/=.
  apply length_insert.
Qed.

Lemma reachable_length (n : nat) (c : concurrent.state) :
  concurrent.reachable built n c → length c.2 = n.
Proof.
  unfold concurrent.reachable. revert c. apply rtc_ind_r.
  - apply length_replicate.
  - intros c c' _ Hstep IH. by rewrite (step_length _ _ Hstep).
Qed.

Lemma run_steps (schedule : list nat) (c : concurrent.state) :
  rtc (concurrent.step built) c (concurrent.run built schedule c).
Proof.
  revert c. induction schedule as [|i schedule IH]; intros c; simpl; [done|].
  destruct (concurrent.step_thread built i c) as [c'|] eqn:Hstep; simpl.
  - eapply rtc_l; [by exists i | apply IH].
  - apply IH.
Qed.

(** Every step brings one goroutine nearer to its return. *)
Lemma work_insert (ts : list (concurrent.goroutine (V := V))) i g g' :
  ts !! i = Some g →
  sum_list ((λ g, concurrent.rank (concurrent.at_ g)) <$> <[i := g']> ts)
    + concurrent.rank (concurrent.at_ g) =
  sum_list ((λ g, concurrent.rank (concurrent.at_ g)) <$> ts)
    + concurrent.rank (concurrent.at_ g').
Proof.
  revert i. induction ts as [|t ts IH]; intros [|i] Hi; simplify_eq/=; [lia|].
  specialize (IH i Hi). lia.
Qed.

Lemma step_work (c c' : concurrent.state) :
  concurrent.step built c c' → concurrent.work c' < concurrent.work c.
Proof.
  intros [i Hstep]. unfold concurrent.step_thread in Hstep.
  destruct c as [sh ts]. simpl in *.
  destruct (ts !! i) as [g|] eqn:Hi; simplify_eq/=.
  destruct (concurrent.step_of built i g sh) as [[g' sh']|] eqn:Hs; simplify_eq/=.
  unfold concurrent.work. simpl.
  pose proof (work_insert ts i g g' Hi) as Hsum.
  assert (concurrent.rank (concurrent.at_ g') < concurrent.rank (concurrent.at_ g)).
  { unfold concurrent.step_of in Hs. destruct g as [[] ? ? ?]; simpl in *;
      repeat case_match; simplify_eq/=; lia. }
  lia.
Qed.

(** As long as a goroutine has not returned, some goroutine can move. *)
Lemma progress (c : concurrent.state) :
  concurrent.inv built c →
  (∃ i g, c.2 !! i = Some g ∧ concurrent.at_ g ≠ concurrent.Returned) →
  ∃ c', concurrent.step built c c'.
Proof.
  intros [Hg Hl] (i & g & Hi & Hat). destruct c as [sh ts]. simpl in *.
  destruct Hg as (_ & _ & _ & _ & G5 & _). simpl in *.
  assert (∀ j gj, ts !! j = Some gj →
            is_Some (concurrent.step_of built j gj sh) →
            ∃ c', concurrent.step built (sh, ts) c') as Hmove.
  { intros j gj Hj [[g' sh'] Hs]. eexists. exists j.
    unfold concurrent.step_thread. simpl. rewrite Hj. simpl. by rewrite Hs. }
  destruct (concurrent.m sh) as [j|] eqn:Hm.
  - destruct (lookup_lt_is_Some_2 ts j (G5 j eq_refl)) as [gj Hj].
    apply (Hmove j gj Hj). destruct (Hl j gj Hj) as [_ Hlj].
    unfold concurrent.step_of.
    destruct (concurrent.at_ gj); destruct_and?; try done;
      repeat case_match; eauto.
  - apply (Hmove i g Hi). destruct (Hl i g Hi) as [_ Hli].
    unfold concurrent.step_of. rewrite Hm.
    destruct (concurrent.at_ g); destruct_and?; try done; try congruence;
      repeat case_match; eauto.
Qed.

(** Whatever the interleaving so far, the callers can all return. *)
Lemma can_return (c : concurrent.state) :
  concurrent.inv built c →
  ∃ c', rtc (concurrent.step built) c c' ∧ concurrent.all_returned c'.
Proof.
  remember (concurrent.work c) as w eqn:Hw. revert c Hw.
  induction w as [w IH] using lt_wf_ind. intros c -> Hinv.
  destruct (decide (Forall (λ g, concurrent.at_ g = concurrent.Returned) c.2))
    as [Hall|Hnot].
  - exists c. split; [done|]. intros i g Hi.
    by eapply (Forall_lookup_1 _ _ _ _ Hall).
  - apply not_Forall_Exists in Hnot; [|apply _].
    apply Exists_exists in Hnot as (g & Hin & Hat).
    apply list_elem_of_lookup in Hin as [i Hi].
    destruct (progress c Hinv) as [c1 Hstep]; [by eauto|].
    destruct (IH (concurrent.work c1) (step_work _ _ Hstep) c1 eq_refl)
      as (c' & Hrtc & Hret); [by eapply inv_step|].
    exists c'. split; [by eapply rtc_l|done].
Qed.

(** C9 (as the code has it). However [n] goroutines that call [get] are
    interleaved: the constructor is entered at most once; while it runs,
    every other caller is still before the mutex of [Do]; the callers can
    all return; and once they all have, the constructor has run exactly
    once, one caller (the one that ran it) has the outcome of the
    constructor, and every other caller has the package variable with a nil
    error. So the callers agree when the constructor succeeds; when it
    fails, only the caller that ran it sees the error. *)
Theorem concurrent_get (n : nat) (c : concurrent.state) :
  concurrent.reachable built n c →
  concurrent.runs c.1 ≤ 1
  ∧ (∀ i g, c.2 !! i = Some g → concurrent.at_ g = concurrent.Running →
       ∀ j gj, c.2 !! j = Some gj → j ≠ i →
         concurrent.at_ gj = concurrent.Enter
         ∨ concurrent.at_ gj = concurrent.WaitLock)
  ∧ (∃ c', rtc (concurrent.step built) c c' ∧ concurrent.all_returned c')
  ∧ (concurrent.all_returned c → 0 < n →
       concurrent.runs c.1 = 1
       ∧ ∃ j, ∀ i g, c.2 !! i = Some g →
           concurrent.ran g = bool_decide (i = j)
           ∧ concurrent.result g =
               Some (if bool_decide (i = j)
                     then concurrent.outcome_of built built.2
                     else (built.1, None))).
Proof.
  intros Hreach. pose proof (inv_reachable n c Hreach) as Hinv.
  pose proof (reachable_length n c Hreach) as Hlen.
  destruct Hinv as [Hg Hl]. split_and!.
  - apply Hg.
  - intros i g Hi Hat j gj Hj Hne.
    destruct (Hl i g Hi) as [_ Hli]. destruct (Hl j gj Hj) as [_ Hlj].
    rewrite Hat in Hli. destruct Hli as (Hm & _ & _ & _ & Hdone).
    destruct (concurrent.at_ gj); destruct_and?; auto; congruence.
  - by apply can_return.
  - intros Hall Hn.
    destruct Hg as (_ & G2 & _ & G4 & _ & G6).
    destruct (lookup_lt_is_Some_2 c.2 0) as [g0 H0]; [lia|].
    destruct (Hl 0 g0 H0) as [_ Hl0]. rewrite (Hall 0 g0 H0) in Hl0.
    destruct Hl0 as (_ & _ & _ & Hdone). destruct (G2 Hdone) as [Hruns Hvar].
    split; [done|]. destruct (G4 Hruns) as (j & gj & Hj & Hran).
    exists j. intros i g Hi. destruct (Hl i g Hi) as [_ Hli].
    rewrite (Hall i g Hi) in Hli. destruct Hli as (_ & Herr & Hres & _).
    rewrite Hres, Herr. case_bool_decide as Hij.
    + subst i. rewrite Hi in Hj. simplify_eq. by rewrite Hran.
    + destruct (concurrent.ran g) eqn:Hrg; [|done].
      destruct Hij. by eapply G6.
Qed.

End ConcurrentFacts.

Section ClientBuiltFacts.
Context `{Collaborators}.

(** The concurrent model is about the closure of the sources: run by a
    single caller at process start, [GRPCClient] assigns and returns what
    [client_built] says. *)
Lemma GRPCClient_fresh_built (cfg : config.Config) :
  (di.GRPCClient cfg di.fresh).2 =
    Ret (concurrent.outcome_of (di.client_built cfg) (di.client_built cfg).2)
  ∧ di.gRPCClient (di.GRPCClient cfg di.fresh).1 = (di.client_built cfg).1.
Proof.
  unfold di.GRPCClient, di.initGRPCClient, di.client_built, Once_Do,
    di.DynamicBuilder, di.initDynamicBuilder, di.log, mbind, M_bind. simpl.
  destruct (config.Web (config.Request cfg)); simpl; [done|].
  by destruct (grpc_NewClient _ _) as [c [e|]].
Qed.

End ClientBuiltFacts.

Lemma concurrent_get_witness :
  let built := di.client_built (H := sample.world sample.all_fine) sample.cfg in
  let c := concurrent.run built sample.two_callers (concurrent.start 2) in
  concurrent.runs c.1 = 1
  ∧ ∃ j, ∀ i g, c.2 !! i = Some g →
      concurrent.ran g = bool_decide (i = j)
      ∧ concurrent.result g =
          Some (if bool_decide (i = j)
                then concurrent.outcome_of built built.2
                else (built.1, None)).
Proof.
  intros built c.
  apply (proj2 (proj2 (proj2 (concurrent_get built 2 c (run_steps built _ _)))));
    [|lia].
  intros [|[|i]] g Hi; vm_compute in Hi; simplify_eq; reflexivity.
Defined.

(** C9, where the claim fails: the dial fails and two goroutines call
    [GRPCClient] at once. The constructor runs once, the goroutine that ran
    it returns the error, the other one returns neither error nor client. *)
Lemma concurrent_callers_disagree_on_error :
  let built := di.client_built (H := sample.world sample.dial_down) sample.cfg in
  let c := concurrent.run built sample.two_callers (concurrent.start 2) in
  built = (None, Some sample.dial_error)
  ∧ concurrent.reachable built 2 c
  ∧ concurrent.runs c.1 = 1
  ∧ concurrent.at_ <$> c.2 = [concurrent.Returned; concurrent.Returned]
  ∧ concurrent.result <$> c.2 =
      [Some (None, Some sample.dial_error); Some (None, None)].
Proof.
  intros built c. split_and!; try (vm_compute; reflexivity).
  apply run_steps.
Qed.

(** * Further properties *)

(** ** Path resolver, continued *)

Section PathResolverMore.
Context `{Collaborators}.

(** X1. An entry the shell-word parser rejects makes [resolveProtoPaths]
    fail with the error of the parser, unchanged, as soon as the entries
    before it resolve; the entries after it play no role. *)
Theorem resolveProtoPaths_parser_error (cfg : config.Config)
    (pre post : list string) (p : string) (paths : list string) (e : error) :
  config.ProtoPath (config.Default cfg) = pre ++ p :: post →
  di.parse_all pre = Ok paths →
  shellwords_Parse p = Err e →
  di.resolveProtoPaths cfg = Err e.
Proof.
  intros Hcfg Hpre Hp.
  rewrite resolveProtoPaths_spec, Hcfg, parse_all_app, Hpre. simpl.
  unfold di.parse. by rewrite Hp.
Qed.

(** X2. [resolveProtoFiles] works entry by entry: the result for a
    concatenation is the concatenation of the results (duplicates are kept),
    and resolving a resolved list changes nothing. *)
Theorem resolveProtoFiles_concat_idempotent (c1 c2 c12 c' : config.Config) :
  config.ProtoFile (config.Default c12) =
    config.ProtoFile (config.Default c1) ++ config.ProtoFile (config.Default c2) →
  config.ProtoFile (config.Default c') = di.resolveProtoFiles c1 →
  di.resolveProtoFiles c12 = di.resolveProtoFiles c1 ++ di.resolveProtoFiles c2
  ∧ di.resolveProtoFiles c' = di.resolveProtoFiles c1
  ∧ "" ∉ di.resolveProtoFiles c1.
Proof.
  intros H12 H'. unfold di.resolveProtoFiles in *.
  rewrite !resolveProtoFiles_loop_filter in *. simpl in *. split_and!.
  - by rewrite H12, filter_app.
  - rewrite H'. apply list_filter_filter_l. done.
  - rewrite list_elem_of_filter. tauto.
Qed.

End PathResolverMore.

Lemma resolveProtoPaths_parser_error_witness :
  di.resolveProtoPaths (H := sample.world sample.all_fine) fixtures.cfg_broken_path =
    Err (ErrExt "invalid command line string").
Proof.
  apply (@resolveProtoPaths_parser_error (sample.world sample.all_fine)
    fixtures.cfg_broken_path ["./protos"] ["a b"] "./dir\" ["./protos"]);
    reflexivity.
Defined.

Lemma resolveProtoFiles_concat_idempotent_witness :
  di.resolveProtoFiles (fixtures.files_cfg ["a.proto"; ""; "b.proto"; "a.proto"; ""]) =
    ["a.proto"; "b.proto"; "a.proto"]
  ∧ di.resolveProtoFiles (fixtures.files_cfg ["a.proto"; "b.proto"]) =
      ["a.proto"; "b.proto"].
Proof.
  destruct (resolveProtoFiles_concat_idempotent
    (fixtures.files_cfg ["a.proto"; ""; "b.proto"])
    (fixtures.files_cfg ["a.proto"; ""])
    (fixtures.files_cfg ["a.proto"; ""; "b.proto"; "a.proto"; ""])
    (fixtures.files_cfg ["a.proto"; "b.proto"])
    eq_refl eq_refl) as (Hcat & Hidem & _).
  split; [exact Hcat | exact Hidem].
Defined.

(** ** Orchestrator, continued *)

Section InitMore.
Context {S F : Type} (call : F → M S (option error)).

Lemma aggregate_None (errs : list error) :
  initializer.aggregate errs = None ↔ errs = [].
Proof. by destruct errs. Qed.

Lemma errors_of_nil (outs : list (option error)) :
  initializer.errors_of outs = [] ↔ Forall (λ o, o = None) outs.
Proof.
  unfold initializer.errors_of. induction outs as [|[e|] outs IH]; simpl.
  - done.
  - split; [done|]. by inversion 1.
  - rewrite IH. split; [by constructor|]. by inversion 1.
Qed.

Lemma errors_of_length (outs : list (option error)) :
  length (initializer.errors_of outs) =
    length (filter (λ o, is_Some o) outs).
Proof.
  unfold initializer.errors_of.
  induction outs as [|[e|] outs IH]; [done| |]; rewrite filter_cons.
  - case_decide as Hs; [simpl; by f_equal|]. destruct Hs. by eexists.
  - case_decide as Hs; [by destruct Hs|done].
Qed.

(** X3. The first [init] never turns a failure into success: it returns nil
    exactly when every constructor returned nil, and otherwise an aggregate
    with one error per failed constructor. *)
Theorem init_nil_iff_no_failure (i : initializer.t F) (s s' : S)
    (outs : list (option error)) :
  initializer.done i = false →
  initializer.runs_in_order call (initializer.f i) s outs s' →
  ∃ result,
    initializer.init call (i, s) =
      ((initializer.mk (initializer.f i) (initializer.resultCache i) true, s'),
       Ret result)
    ∧ (result = None ↔ Forall (λ o, o = None) outs)
    ∧ (∀ errs, result = Some errs →
         errs = initializer.errors_of outs
         ∧ length errs = length (filter (λ o, is_Some o) outs)).
Proof.
  intros Hdone Hruns. rewrite (init_runs call i s s' outs Hdone Hruns).
  eexists. split; [done|]. split.
  - by rewrite aggregate_None, errors_of_nil.
  - intros errs Hagg.
    assert (errs = initializer.errors_of outs) as ->.
    { destruct (initializer.errors_of outs); simpl in Hagg; congruence. }
    split; [done|]. apply errors_of_length.
Qed.

(** X4. Constructors registered after the first [init] are never run: a
    later [init] calls nothing, leaves the state alone and returns what the
    field [resultCache] held before the first call. *)
Theorem register_after_init_ignored (i i1 : initializer.t F) (s s1 : S)
    (r1 : option multierror.Error) (fs : list F) :
  initializer.init call (i, s) = ((i1, s1), Ret r1) →
  initializer.init call (initializer.register i1 fs, s1) =
    ((initializer.register i1 fs, s1), Ret (initializer.resultCache i))
  ∧ initializer.f (initializer.register i1 fs) = initializer.f i ++ fs.
Proof.
  rewrite !init_unfold. destruct (initializer.done i) eqn:Hdone.
  - intros [= <- <- <-]. simpl. by rewrite Hdone.
  - destruct (initializer.init_loop call (initializer.f i) None s) as [s2 [r|]];
      [|done].
    by intros [= <- <- <-].
Qed.

End InitMore.

Lemma init_nil_iff_no_failure_witness :
  ∃ result,
    initializer.init sample.numbered
      (initializer.mk [(1, false); (2, true)] None false, []) =
      ((initializer.mk [(1, false); (2, true)] None true, [1; 2]), Ret result)
    ∧ (result = None ↔ Forall (λ o, o = None) [None; Some (ErrExt "constructor 2")])
    ∧ (∀ errs, result = Some errs →
         errs = initializer.errors_of [None; Some (ErrExt "constructor 2")]
         ∧ length errs =
             length (filter (λ o, is_Some o) [None; Some (ErrExt "constructor 2")])).
Proof.
  apply (init_nil_iff_no_failure sample.numbered
    (initializer.mk [(1, false); (2, true)] None false) [] [1; 2]
    [None; Some (ErrExt "constructor 2")] eq_refl).
  repeat (econstructor; [reflexivity|]). constructor.
Defined.

Lemma register_after_init_ignored_witness :
  initializer.init sample.numbered
    (initializer.register (initializer.mk [(1, true)] None true) [(2, true)], [1]) =
  ((initializer.register (initializer.mk [(1, true)] None true) [(2, true)], [1]),
   Ret None).
Proof.
  apply (proj1 (register_after_init_ignored sample.numbered
    (initializer.mk [(1, true)] None false) (initializer.mk [(1, true)] None true)
    [] [1] (Some [ErrExt "constructor 1"]) [(2, true)] eq_refl)).
Defined.

(** ** Cleanup, continued *)

Section CleanupMore.
Context `{Collaborators}.

(** X17. [Cleanup] keeps no record of having run: called twice on
    parameters that hold a client, it closes that client twice. *)
Theorem Cleanup_twice_closes_twice (p : usecase.InteractorParams)
    (c : entity_GRPCClient) (ctx ctx' : context_Context)
    (calls : list (entity_GRPCClient * context_Context)) :
  usecase.GRPCClient p = Some c →
  (usecase.Cleanup p ctx ≫= λ _, usecase.Cleanup p ctx') calls =
    (calls ++ [(c, ctx); (c, ctx')], Ret (Close c ctx')).
Proof.
  intros Hc. unfold usecase.Cleanup, mbind, M_bind. rewrite Hc. simpl.
  by rewrite <- app_assoc.
Qed.

End CleanupMore.

Lemma Cleanup_twice_closes_twice_witness :
  (usecase.Cleanup (sample.params (Some "stale")) () ≫=
     λ _, usecase.Cleanup (sample.params (Some "stale")) ()) [] =
  ([("stale", ()); ("stale", ())], Ret (Some sample.close_error)).
Proof.
  apply (@Cleanup_twice_closes_twice (sample.world sample.all_fine)
    (sample.params (Some "stale")) "stale" () () [] eq_refl).
Defined.

(** ** Registries, continued *)

Section RegistryMore.
Context `{Collaborators}.

(** X5. The environment constructor resolves the proto paths and parses the
    proto files before it asks for the gRPC client. When one of the two
    fails, [initEnv] returns that error as it is; the client constructor is
    not entered, and no variable other than the mark of the registry
    changes. *)
Theorem initEnv_fails_before_client (cfg : config.Config) (s : di.State) (e : error) :
  di.envOnce s = false →
  di.resolveProtoPaths cfg = Err e
  ∨ (∃ paths, di.resolveProtoPaths cfg = Ok paths
              ∧ protobuf_ParseFile (di.resolveProtoFiles cfg) paths = Err e) →
  di.initEnv cfg s =
    (di.set_envOnce true
       (di.set_trace (di.trace s ++ [di.EvConstruct di.RegEnv]) s),
     Ret (Some e)).
Proof.
  intros Honce Hfail. unfold di.initEnv, Once_Do. rewrite Honce.
  unfold di.log, mbind, M_bind. simpl.
  destruct Hfail as [->|(paths & -> & ->)]; done.
Qed.


(** X7. Every error of the part of the constructor that follows the
    client lookup is the error of one collaborator call, wrapped: the error
    [ListServices] returned for the client, under the reflection message;
    or the error [UsePackage] returned for the default package on the
    environment just made from the parsed files, under the package message;
    or the error [UseService] returned for the default service on the
    environment built so far, under the service message. In the last case
    [env] holds the environment as [UseService] left it. *)
Theorem initEnv_select_errors_wrapped (cfg : config.Config)
    (desc : protobuf_FileDesc) (client : option entity_GRPCClient)
    (s s' : di.State) (e : error) :
  di.initEnv_select cfg desc client s = (s', Ret (Some e)) →
  ∃ c cause,
    client = Some c
    ∧ ((ReflectionEnabled c = true
        ∧ ListServices c = Err cause
        ∧ e = ErrWrap cause "failed to list services by gRPC reflection")
       ∨ (ReflectionEnabled c = false
          ∧ config.Package (config.Default cfg) ≠ ""
          ∧ (UsePackage
               (environment_New desc
                  ((λ h, entity.Build_Header (config.Key h) (config.Val h)) <$>
                     config.Header_ (config.Request cfg)))
               (config.Package (config.Default cfg))).2 = Some cause
          ∧ e = ErrWrap cause
                  ("failed to set package to env as a default package: " +:+
                   config.Package (config.Default cfg)))
       ∨ (∃ e0,
            ((∃ svcs msgs,
                ReflectionEnabled c = true
                ∧ ListServices c = Ok (svcs, msgs)
                ∧ e0 = environment_NewFromServices svcs msgs
                         ((λ h, entity.Build_Header (config.Key h) (config.Val h)) <$>
                            config.Header_ (config.Request cfg)))
             ∨ (ReflectionEnabled c = false
                ∧ config.Package (config.Default cfg) = ""
                ∧ e0 = environment_New desc
                         ((λ h, entity.Build_Header (config.Key h) (config.Val h)) <$>
                            config.Header_ (config.Request cfg)))
             ∨ (ReflectionEnabled c = false
                ∧ config.Package (config.Default cfg) ≠ ""
                ∧ UsePackage
                    (environment_New desc
                       ((λ h, entity.Build_Header (config.Key h) (config.Val h)) <$>
                          config.Header_ (config.Request cfg)))
                    (config.Package (config.Default cfg)) = (e0, None)))
            ∧ config.Service (config.Default cfg) ≠ ""
            ∧ (UseService e0 (config.Service (config.Default cfg))).2 = Some cause
            ∧ di.env s' =
                Some (UseService e0 (config.Service (config.Default cfg))).1
            ∧ e = ErrWrap cause
                    ("failed to set service to env as a default service: " +:+
                     config.Service (config.Default cfg)))).
Proof.
  unfold di.initEnv_select, di.env_call, mbind, M_bind, modify, gets, panic,
    mret, M_ret.
  intros Hrun. destruct client as [c|]; [|done].
  destruct s. simpl in Hrun.
  repeat (case_match; simplify_eq/=);
    repeat match goal with
    | Hb : bool_decide _ = true |- _ => apply bool_decide_eq_true in Hb
    | Hb : bool_decide _ = false |- _ =>
        apply bool_decide_eq_false in Hb; apply dec_stable in Hb
    end;
    exists c; eexists; (split; [done|]).
  all: first
    [ left; split_and!; done
    | right; left; split_and!; try done;
      match goal with Hu : UsePackage _ _ = _ |- _ => by rewrite Hu end
    | right; right; eexists; split;
      [ first [ left; eexists _, _; split_and!; done
              | right; left; split_and!; done
              | right; right; split_and!; done ]
      | split_and!; try done;
        match goal with Hu : UseService _ _ = _ |- _ => by rewrite Hu end ] ].
Qed.

(** X8. For the web client the constructor cannot fail: it builds the
    message builder if that was not done yet, hands it to the web client and
    stores the client. *)
Theorem GRPCClient_web_cannot_fail (cfg : config.Config) (s : di.State) :
  config.Web (config.Request cfg) = true →
  di.gRPCClientOnce s = false →
  di.builder_inv s →
  ∃ s1,
    di.GRPCClient cfg s =
      (s1, Ret (Some (grpc_NewWebClient
                        (config.Host (config.Server cfg) +:+ ":" +:+
                         config.Port (config.Server cfg))
                        (config.Reflection (config.Server cfg))
                        (Some protobuf_NewDynamicBuilder)),
                None))
    ∧ di.dynamicBuilder s1 = Some protobuf_NewDynamicBuilder
    ∧ di.dynamicBuilderOnce s1 = true
    ∧ di.gRPCClientOnce s1 = true.
Proof.
  intros Hweb Honce Hinv.
  unfold di.GRPCClient, di.initGRPCClient, di.DynamicBuilder,
    di.initDynamicBuilder, Once_Do, di.log, mbind, M_bind.
  simpl. rewrite Honce, Hweb. simpl.
  destruct (di.dynamicBuilderOnce s) eqn:Hb; simpl.
  - rewrite (Hinv Hb). eexists. split; [done|]. simpl.
    destruct s; simpl in *. split_and!; try done. by apply Hinv.
  - eexists. split; [done|]. by destruct s.
Qed.

(** X9. After a [GRPCClient] that failed and left no client, the first
    [Env] panics: the environment constructor gets a nil client with a nil
    error and calls [ReflectionEnabled] on it. The registry is marked all
    the same and [env] stays as it was. *)
Theorem Env_after_failed_client_panics (cfg : config.Config) (s : di.State)
    (paths : list string) (desc : protobuf_FileDesc) :
  di.gRPCClientOnce s = true →
  di.gRPCClient s = None →
  di.envOnce s = false →
  di.resolveProtoPaths cfg = Ok paths →
  protobuf_ParseFile (di.resolveProtoFiles cfg) paths = Ok desc →
  (di.Env cfg s).2 = Panic
  ∧ di.envOnce (di.Env cfg s).1 = true
  ∧ di.env (di.Env cfg s).1 = di.env s.
Proof.
  intros Hconce Hc Honce Hpaths Hdesc.
  assert (di.initEnv cfg s =
            (di.set_envOnce true
               (di.set_trace (di.trace s ++ [di.EvConstruct di.RegEnv]) s),
             Panic)) as Hinit.
  { unfold di.initEnv, Once_Do. rewrite Honce, Hpaths, Hdesc.
    unfold di.log, di.GRPCClient, mbind, M_bind. simpl.
    rewrite initGRPCClient_again by (by destruct s). simpl.
    destruct s; simpl in *. by subst. }
  unfold di.Env, mbind, M_bind. rewrite Hinit. simpl. by destruct s.
Qed.

(** X10. Once the environment registry is marked, whatever the outcome
    was, the prompt inputter constructor reports success: it builds the
    prompt inputter over the variable [env] as it stands, nil included. *)
Theorem initPromptInputter_after_Env (cfg : config.Config) (s : di.State) :
  di.envOnce s = true →
  di.promptInputterOnce s = false →
  di.initPromptInputter cfg s =
    (di.set_promptInputterOnce true
       (di.set_promptInputter
          (Some (inputter_NewPrompt (config.PromptFormat (config.Input cfg))
                   (di.env s)))
          (di.set_trace (di.trace s ++ [di.EvConstruct di.RegPromptInputter]) s)),
     Ret None).
Proof.
  intros Henv Honce. rewrite initPromptInputter_first by done.
  rewrite Env_unfold, initEnv_again by (by destruct s).
  by destruct s.
Qed.

(** X11. The JSON file inputter is built from the reader of the first
    call; a later call with another reader changes nothing. *)
Theorem initJSONFileInputter_first_reader_wins (in1 in2 : io_Reader) (s : di.State) :
  di.jsonFileInputterOnce s = false →
  ∃ s1,
    di.initJSONFileInputter in1 s = (s1, Ret None)
    ∧ di.jsonFileInputter s1 = Some (inputter_NewJSONFile in1)
    ∧ di.initJSONFileInputter in2 s1 = (s1, Ret None).
Proof.
  intros Honce. unfold di.initJSONFileInputter, Once_Do, di.log, mbind, M_bind.
  rewrite Honce. simpl. eexists. split; [done|]. by destruct s.
Qed.

End RegistryMore.

Lemma initEnv_fails_before_client_witness :
  di.initEnv (H := sample.world sample.bad_proto) sample.cfg di.fresh =
    (di.set_envOnce true
       (di.set_trace [di.EvConstruct di.RegEnv] di.fresh),
     Ret (Some sample.parse_file_error)).
Proof.
  apply (@initEnv_fails_before_client (sample.world sample.bad_proto)
    sample.cfg di.fresh sample.parse_file_error eq_refl).
  right. exists ["./protos"]. split; reflexivity.
Defined.


Lemma initEnv_select_errors_wrapped_witness :
  ∃ c cause,
    Some "localhost:50051" = Some c
    ∧ ((ReflectionEnabled (Collaborators := sample.world sample.bad_service) c = true
        ∧ ListServices (Collaborators := sample.world sample.bad_service) c = Err cause
        ∧ ErrWrap sample.use_service_error
            "failed to set service to env as a default service: Greeter" =
          ErrWrap cause "failed to list services by gRPC reflection")
       ∨ (ReflectionEnabled (Collaborators := sample.world sample.bad_service) c = false
          ∧ "" ≠ ""
          ∧ (UsePackage (Collaborators := sample.world sample.bad_service)
               ["x.proto"] "").2 = Some cause
          ∧ ErrWrap sample.use_service_error
              "failed to set service to env as a default service: Greeter" =
            ErrWrap cause
              ("failed to set package to env as a default package: " +:+ ""))
       ∨ (∃ e0,
            ((∃ svcs msgs,
                ReflectionEnabled (Collaborators := sample.world sample.bad_service) c
                  = true
                ∧ ListServices (Collaborators := sample.world sample.bad_service) c
                  = Ok (svcs, msgs)
                ∧ e0 = svcs ++ msgs)
             ∨ (ReflectionEnabled (Collaborators := sample.world sample.bad_service) c
                  = false
                ∧ "" = ""
                ∧ e0 = ["x.proto"])
             ∨ (ReflectionEnabled (Collaborators := sample.world sample.bad_service) c
                  = false
                ∧ "" ≠ ""
                ∧ UsePackage (Collaborators := sample.world sample.bad_service)
                    ["x.proto"] "" = (e0, None)))
            ∧ "Greeter" ≠ ""
            ∧ (UseService (Collaborators := sample.world sample.bad_service)
                 e0 "Greeter").2 = Some cause
            ∧ Some ["x.proto"] =
                Some (UseService (Collaborators := sample.world sample.bad_service)
                        e0 "Greeter").1
            ∧ ErrWrap sample.use_service_error
                "failed to set service to env as a default service: Greeter" =
              ErrWrap cause
                ("failed to set service to env as a default service: " +:+ "Greeter"))).
Proof.
  apply (@initEnv_select_errors_wrapped (sample.world sample.bad_service)
    sample.cfg ["x.proto"] (Some "localhost:50051") di.fresh
    (di.initEnv_select (H := sample.world sample.bad_service) sample.cfg
       ["x.proto"] (Some "localhost:50051") di.fresh).1).
  vm_compute. reflexivity.
Defined.

Lemma GRPCClient_web_cannot_fail_witness :
  ∃ s1,
    di.GRPCClient (H := sample.world sample.dial_down) fixtures.web_cfg di.fresh =
      (s1, Ret (Some "web:localhost:50051", None))
    ∧ di.dynamicBuilder s1 = Some ()
    ∧ di.dynamicBuilderOnce s1 = true
    ∧ di.gRPCClientOnce s1 = true.
Proof.
  apply (@GRPCClient_web_cannot_fail (sample.world sample.dial_down)
    fixtures.web_cfg di.fresh eq_refl eq_refl).
  intros Hb. discriminate Hb.
Defined.

Lemma Env_after_failed_client_panics_witness :
  (di.Env (H := sample.world sample.dial_down) sample.cfg
     (di.GRPCClient (H := sample.world sample.dial_down) sample.cfg di.fresh).1).2
    = Panic
  ∧ di.envOnce
      (di.Env (H := sample.world sample.dial_down) sample.cfg
         (di.GRPCClient (H := sample.world sample.dial_down) sample.cfg di.fresh).1).1
    = true
  ∧ di.env
      (di.Env (H := sample.world sample.dial_down) sample.cfg
         (di.GRPCClient (H := sample.world sample.dial_down) sample.cfg di.fresh).1).1
    = None.
Proof.
  apply (@Env_after_failed_client_panics (sample.world sample.dial_down)
    sample.cfg
    (di.GRPCClient (H := sample.world sample.dial_down) sample.cfg di.fresh).1
    ["./protos"] ["./protos"; "api.proto"]); reflexivity.
Defined.

Lemma initPromptInputter_after_Env_witness :
  (di.initPromptInputter (H := sample.world sample.bad_proto) sample.cfg
     (di.Env (H := sample.world sample.bad_proto) sample.cfg di.fresh).1).2 =
    Ret None
  ∧ di.promptInputter
      (di.initPromptInputter (H := sample.world sample.bad_proto) sample.cfg
         (di.Env (H := sample.world sample.bad_proto) sample.cfg di.fresh).1).1 =
    Some ("{name}> ", None).
Proof.
  rewrite (@initPromptInputter_after_Env (sample.world sample.bad_proto)
    sample.cfg (di.Env (H := sample.world sample.bad_proto) sample.cfg di.fresh).1
    eq_refl eq_refl).
  split; reflexivity.
Defined.

Lemma initJSONFileInputter_first_reader_wins_witness :
  ∃ s1,
    di.initJSONFileInputter (H := sample.world sample.all_fine) 3 di.fresh =
      (s1, Ret None)
    ∧ di.jsonFileInputter s1 = Some 3
    ∧ di.initJSONFileInputter (H := sample.world sample.all_fine) 4 s1 =
        (s1, Ret None).
Proof.
  apply (@initJSONFileInputter_first_reader_wins (sample.world sample.all_fine)
    3 4 di.fresh eq_refl).
Defined.

(** ** The first run, in general *)

Section FirstRunMore.
Context `{Collaborators}.

Lemma closes_snoc_construct (tr : list di.Event) (r : di.registry) :
  record.closes (tr ++ [di.EvConstruct r]) = record.closes tr.
Proof. unfold record.closes. rewrite omap_app. simpl. by rewrite app_nil_r. Qed.

Lemma closes_snoc_close (tr : list di.Event) (c : entity_GRPCClient)
    (ctx : context_Context) :
  record.closes (tr ++ [di.EvClose c ctx]) = record.closes tr ++ [(c, ctx)].
Proof. unfold record.closes. by rewrite omap_app. Qed.

(** The constructor of the client has no call that can panic. *)
Lemma initGRPCClient_returns (cfg : config.Config) (s : di.State) :
  ∃ e, (di.initGRPCClient cfg s).2 = Ret e.
Proof.
  unfold di.initGRPCClient, di.DynamicBuilder, di.initDynamicBuilder, Once_Do,
    di.log, mbind, M_bind, modify, gets, mret, M_ret.
  repeat (case_match; simplify_eq/=); eauto.
Qed.

(** An environment that was built has asked for the client. *)
Lemma initEnv_success_ran_client (cfg : config.Config) (s : di.State) :
  di.envOnce s = false →
  (di.initEnv cfg s).2 = Ret None →
  di.gRPCClientOnce (di.initEnv cfg s).1 = true.
Proof.
  intros Honce. unfold di.initEnv, Once_Do. rewrite Honce.
  unfold di.log, mbind, M_bind. simpl.
  set (sl := di.set_trace _ s).
  destruct (di.resolveProtoPaths cfg) as [paths|err]; simpl; [|done].
  destruct (protobuf_ParseFile _ paths) as [desc|err]; simpl; [|done].
  pose proof (initGRPCClient_marks cfg sl) as Hmark.
  rewrite (surjective_pairing (di.initGRPCClient cfg sl)) in Hmark.
  specialize (Hmark _ _ eq_refl). rewrite <- GRPCClient_state in Hmark.
  destruct (di.GRPCClient cfg sl) as [sg [[g [err|]]|]]; simpl in *; [done| |done].
  assert (di.stable (λ s0, di.gRPCClientOnce s0 = true)
            (di.initEnv_select cfg desc g)) as Hkeep by frame.
  specialize (Hkeep sg Hmark).
  destruct (di.initEnv_select cfg desc g sg) as [s1 o]. simpl in *.
  intros _. by destruct s1.
Qed.

(** The record of a first run holds no [Close]. *)
Lemma call_keeps_closes (fn : di.ctor)
    (l : list (entity_GRPCClient * context_Context)) :
  di.stable (λ s, record.closes (di.trace s) = l) (di.call fn).
Proof.
  destruct fn; repeat frame_step;
    intros; repeat match goal with s : di.State |- _ => destruct s end;
    simpl in *; rewrite ?closes_snoc_construct; done.
Qed.

Lemma runs_keep_closes (fs : list di.ctor) (s s' : di.State)
    (outs : list (option error)) :
  initializer.runs_in_order di.call fs s outs s' →
  record.closes (di.trace s') = record.closes (di.trace s).
Proof.
  induction 1 as [|fn fs s s1 s2 o os Hcall _ IH]; [done|].
  rewrite IH. by apply (stable_at _ _ _ _ _ (call_keeps_closes fn _) Hcall).
Qed.

(** The first run of the six constructors, whatever the environment
    constructor returns. *)
Lemma first_run_shape (cfg : config.Config) (in_ : io_Reader)
    (eE : option error) :
  (di.initEnv cfg di.fresh).2 = Ret eE →
  ∃ s1 eC,
    initializer.runs_in_order di.call (di.registered cfg in_) di.fresh
      [None; eE; eC; None; None; None] s1
    ∧ Ret eC = (if di.gRPCClientOnce (di.initEnv cfg di.fresh).1 then Ret None
                else (di.initGRPCClient cfg di.fresh).2)
    ∧ di.jsonFileInputter s1 = Some (inputter_NewJSONFile in_)
    ∧ di.jsonCLIPresenter s1 = Some presenter_NewJSONWithIndent
    ∧ di.dynamicBuilder s1 = Some protobuf_NewDynamicBuilder
    ∧ di.env s1 = di.env (di.initEnv cfg di.fresh).1
    ∧ di.promptInputter s1 =
        Some (inputter_NewPrompt (config.PromptFormat (config.Input cfg))
                (match eE with
                 | Some _ => None
                 | None => di.env (di.initEnv cfg di.fresh).1
                 end))
    ∧ di.gRPCClient s1 = di.gRPCClient (di.initGRPCClient cfg di.fresh).1
    ∧ di.gRPCClientOnce s1 = true.
Proof.
  intros HEfresh.
  set (sA := (di.initJSONFileInputter in_ di.fresh).1).
  assert (di.call (di.fn_initJSONFileInputter in_) di.fresh = (sA, Ret None))
    as HA by reflexivity.
  set (sA' := di.set_trace (di.trace sA ++ [di.EvConstruct di.RegPromptInputter]) sA).
  assert (di.env_view sA' = di.env_view di.fresh) as HvA by reflexivity.
  (* the environment, inside the prompt inputter *)
  destruct (initEnv_determined cfg sA' di.fresh HvA) as [Hout HvE].
  rewrite HEfresh in Hout.
  pose proof (initEnv_client_view cfg sA' eq_refl) as Hclient.
  destruct (di.initEnv cfg sA') as [sE oE] eqn:HE. simpl in Hout, HvE, Hclient.
  subst oE.
  pose proof (initEnv_marks _ _ _ _ HE) as HEonce.
  set (fmt := config.PromptFormat (config.Input cfg)).
  set (envB := match eE with Some _ => None | None => di.env sE end).
  set (sB := di.set_promptInputterOnce true
               (di.set_promptInputter (Some (inputter_NewPrompt fmt envB)) sE)).
  assert (di.call (di.fn_initPromptInputter cfg) sA = (sB, Ret eE)) as HB.
  { simpl. rewrite initPromptInputter_first by done. fold sA'.
    rewrite Env_unfold, HE. unfold sB, envB. by destruct eE. }
  set (kept := λ s : di.State,
         di.jsonFileInputter s = Some (inputter_NewJSONFile in_)
         ∧ di.jsonCLIPresenterOnce s = false).
  assert (kept sB ∧ di.builder_inv sB) as [HkB HbB].
  { assert (di.stable kept (di.initEnv cfg)) as Hkeep by (unfold kept; frame).
    assert (di.stable di.builder_inv (di.initEnv cfg)) as Hinv by frame.
    assert (kept sA') as HkA by done.
    assert (di.builder_inv sA') as HbA by done.
    apply (stable_at _ _ _ _ _ Hkeep HE) in HkA.
    apply (stable_at _ _ _ _ _ Hinv HE) in HbA.
    unfold kept in *. by destruct sE. }
  assert (di.env sE = di.env (di.initEnv cfg di.fresh).1
          ∧ di.gRPCClientOnce sE = di.gRPCClientOnce (di.initEnv cfg di.fresh).1)
    as [HenvE HonceE].
  { unfold di.env_view, di.client_view in HvE. by simplify_eq. }
  (* the client *)
  destruct (initGRPCClient_returns cfg di.fresh) as [eG HG].
  assert (∃ sC eC, di.initGRPCClient cfg sB = (sC, Ret eC)
            ∧ Ret eC = (if di.gRPCClientOnce sE then Ret None
                        else (di.initGRPCClient cfg di.fresh).2)
            ∧ di.client_view sC =
                di.client_view (di.initGRPCClient cfg di.fresh).1)
    as (sC & eC & HC & HeC & HvC).
  { pose proof (initGRPCClient_marks cfg di.fresh) as Hmark.
    rewrite (surjective_pairing (di.initGRPCClient cfg di.fresh)) in Hmark.
    specialize (Hmark _ _ eq_refl).
    destruct Hclient as [Hsame|Hbuilt].
    - assert (di.client_view sB = di.client_view di.fresh) as HvB.
      { transitivity (di.client_view sE); [by destruct sE|]. by rewrite Hsame. }
      assert (di.gRPCClientOnce sE = false) as ->.
      { unfold di.client_view in Hsame. by simplify_eq. }
      destruct (initGRPCClient_determined cfg sB di.fresh HvB) as [Hout Hv].
      destruct (di.initGRPCClient cfg sB) as [sC o]. simpl in *.
      rewrite HG in Hout. subst o. exists sC, eG. by rewrite HG.
    - destruct (initGRPCClient_determined cfg sA' di.fresh eq_refl) as [_ Hv].
      rewrite Hv in Hbuilt.
      assert (di.gRPCClientOnce sE = true) as Honce.
      { unfold di.client_view in Hbuilt. injection Hbuilt as ? ? ? ?. congruence. }
      rewrite Honce. rewrite initGRPCClient_again by (by destruct sE).
      exists sB, None. split_and!; [done..|].
      rewrite <- Hbuilt. by destruct sE. }
  set (keptC := λ s : di.State,
         kept s ∧ di.envOnce s = true ∧ di.env s = di.env sE
         ∧ di.promptInputter s = Some (inputter_NewPrompt fmt envB)).
  assert (keptC sC ∧ di.builder_inv sC)
    as [([HfileC HpresC] & HonceC & HenvC & HpC) HbC].
  { assert (di.stable keptC (di.initGRPCClient cfg)) as Hkeep
      by (unfold keptC, kept; frame).
    assert (di.stable di.builder_inv (di.initGRPCClient cfg)) as Hinv by frame.
    split; [|by apply (stable_at _ _ _ _ _ Hinv HC)].
    apply (stable_at _ _ _ _ _ Hkeep HC).
    unfold keptC, kept in *. by destruct sE. }
  pose proof (initGRPCClient_marks _ _ _ _ HC) as HCmark.
  (* the environment again, the presenter, the builder *)
  assert (di.call (di.fn_initEnv cfg) sC = (sC, Ret None)) as HD
    by (by apply initEnv_again).
  set (sP := di.set_jsonCLIPresenterOnce true
               (di.set_jsonCLIPresenter (Some presenter_NewJSONWithIndent)
                  (di.set_trace
                     (di.trace sC ++ [di.EvConstruct di.RegJSONCLIPresenter]) sC))).
  assert (di.call di.fn_initJSONCLIPresenter sC = (sP, Ret None)) as HP.
  { unfold di.call, di.initJSONCLIPresenter, Once_Do, mbind, M_bind.
    by rewrite HpresC. }
  destruct (initDynamicBuilder_builds sP) as (sF & HF & HbF).
  { by destruct sC. }
  set (keptF := λ s : di.State,
         di.jsonFileInputter s = Some (inputter_NewJSONFile in_)
         ∧ di.jsonCLIPresenter s = Some presenter_NewJSONWithIndent
         ∧ di.promptInputter s = Some (inputter_NewPrompt fmt envB)
         ∧ di.env s = di.env sE ∧ di.gRPCClient s = di.gRPCClient sC
         ∧ di.gRPCClientOnce s = true).
  assert (keptF sF) as (HF1 & HF2 & HF3 & HF4 & HF5 & HF6).
  { assert (di.stable keptF di.initDynamicBuilder) as Hkeep
      by (unfold keptF; frame).
    apply (stable_at _ _ _ _ _ Hkeep HF).
    unfold keptF. by destruct sC. }
  exists sF, eC. split_and!; try done.
  - repeat (econstructor; [eassumption|]). constructor.
  - by rewrite <- HonceE.
  - by rewrite HF4.
  - rewrite HF3. unfold envB. by rewrite HenvE.
  - rewrite HF5. unfold di.client_view in HvC. by simplify_eq.
Qed.

End FirstRunMore.

(** ** Any sequence of calls *)

Section InvariantRules.
Context `{Collaborators}.

Lemma constructions_snoc (r : di.registry) (tr : list di.Event) (ev : di.Event) :
  record.constructions r (tr ++ [ev]) =
    record.constructions r tr + (if record.is_construct r ev then 1 else 0).
Proof.
  unfold record.constructions. rewrite filter_app, length_app. f_equal.
  rewrite filter_cons, filter_nil. case_decide as Hev.
  - by destruct (record.is_construct r ev).
  - by destruct (record.is_construct r ev).
Qed.

(** The [Once] of [r] around the closure of [r]: the closure is entered
    only when it was not entered before. *)
Lemma marked_Once {A} (r : di.registry) (done : di.State → bool)
    (set_done : bool → di.State → di.State) (zero : A) (body : M di.State A) :
  (∀ s, done s = record.once r s) →
  (∀ s, record.once r (set_done true s) = true
        ∧ di.trace (set_done true s) = di.trace s) →
  (∀ s, record.once r (di.set_trace (di.trace s ++ [di.EvConstruct r]) s) =
          record.once r s) →
  record.is_construct r (di.EvConstruct r) = true →
  di.stable (record.entered r) body →
  di.stable (record.marked r)
    (Once_Do done set_done zero (di.log (di.EvConstruct r) ≫= λ _, body)).
Proof.
  intros Hdone Hset Hlog Hself Hbody s Hmarked. unfold Once_Do.
  rewrite Hdone. unfold record.marked in *.
  destruct (record.once r s) eqn:Honce; simpl; [by rewrite Honce|].
  unfold di.log, mbind, M_bind, modify. simpl.
  set (sl := di.set_trace _ s).
  assert (record.entered r sl) as Hentered.
  { split; [|by unfold sl; rewrite Hlog].
    unfold sl. replace (di.trace (di.set_trace _ s))
      with (di.trace s ++ [di.EvConstruct r]) by (by destruct s).
    rewrite constructions_snoc, Hself. lia. }
  specialize (Hbody sl Hentered). destruct (body sl) as [s1 o]. simpl in *.
  destruct Hbody as [Hcount _]. destruct (Hset s1) as [-> ->]. done.
Qed.

(** A property that holds as soon as the mark is set holds after [Do]. *)
Lemma established_Once {A} (P : di.State → Prop) (done : di.State → bool)
    (set_done : bool → di.State → di.State) (zero : A) (body : M di.State A) :
  (∀ s, P (set_done true s)) →
  di.stable P (Once_Do done set_done zero body).
Proof.
  intros Hset s HP. unfold Once_Do. destruct (done s); [done|].
  destruct (body s) as [s1 o]. apply Hset.
Qed.

Lemma init_loop_keeps (P : di.State → Prop) (fs : list di.ctor)
    (result : option multierror.Error) :
  (∀ fn, di.stable P (di.call fn)) →
  di.stable P (initializer.init_loop di.call fs result).
Proof.
  intros Hcall. revert result. induction fs as [|fn fs IH]; intros result; simpl.
  - apply stable_ret.
  - apply stable_bind; [apply Hcall|]. intros [err|]; apply IH.
Qed.

(** [initer.init()] keeps what the registered functions keep, if writing
    the receiver keeps it. *)
Lemma init_keeps (P : di.State → Prop) :
  (∀ fn, di.stable P (di.call fn)) →
  (∀ i s, P s → P (di.set_initer (Some i) s)) →
  di.stable P (di.on_initer (initializer.init di.call)).
Proof.
  intros Hcall Hset s HP. unfold di.on_initer.
  destruct (di.initer s) as [i|]; [|done].
  rewrite init_unfold. destruct (initializer.done i); [by apply Hset|].
  pose proof (init_loop_keeps P (initializer.f i) None Hcall s HP) as Hloop.
  destruct (initializer.init_loop _ _ _ s) as [s1 o]. by apply Hset.
Qed.

End InvariantRules.

(** The side conditions on the setters, for properties of the record. *)
Ltac counts :=
  intros;
  repeat match goal with s : di.State |- _ => destruct s end;
  unfold record.marked, record.entered, record.client_inv, record.once in *;
  simpl in *;
  rewrite ?constructions_snoc, ?closes_snoc_construct, ?closes_snoc_close;
  simpl;
  destruct_and?; simplify_eq/=; split_and?;
  try done; try lia; try congruence; try (by eauto).

Ltac head_of m :=
  lazymatch m with
  | ?f _ => head_of f
  | _ => m
  end.

(** As [frame_step], but a [Once] is taken as a whole where the property
    is about its own registry. *)
Ltac inv_step :=
  lazymatch goal with
  | |- ∀ _, _ => intro
  | |- di.stable _ (mret _) => apply stable_ret
  | |- di.stable _ panic => apply stable_panic
  | |- di.stable _ (gets _) => apply stable_gets
  | |- di.stable _ (modify _) => apply stable_modify
  | |- di.stable _ (_ ≫= _) => apply stable_bind
  | |- di.stable _ (Once_Do _ _ _ _) =>
      first [ apply marked_Once; [counts|counts|counts|reflexivity|]
            | apply established_Once; solve [counts]
            | apply stable_Once ]
  | |- di.stable _ (di.on_initer _) => apply init_keeps; [|solve [counts]]
  | |- di.stable _ ?m =>
      first [ case_match | let h := head_of m in unfold h ]
  end.

Ltac keeps := repeat inv_step; counts.

Section Invariants.
Context `{Collaborators}.

(** Every function of the package keeps the count of constructor runs in
    step with the marks. *)
Lemma exec_marked (r : di.registry) (o : record.op) (s : di.State) :
  record.marked r s → record.marked r (record.exec o s).
Proof.
  revert s. destruct o; simpl;
    match goal with
    | |- ∀ s, _ → record.marked r (?f s).1 =>
        assert (di.stable (record.marked r) f) as K by (destruct r; keeps);
        exact K
    end.
Qed.

Lemma exec_client_inv (o : record.op) (s : di.State) :
  record.client_inv s → record.client_inv (record.exec o s).
Proof.
  revert s. destruct o; simpl;
    match goal with
    | |- ∀ s, _ → record.client_inv (?f s).1 =>
        assert (di.stable record.client_inv f) as K by keeps;
        exact K
    end.
Qed.

(** The functions other than [initDependencies] touch neither the
    orchestrator nor the [Close] record. *)
Lemma call_keeps_orchestrator (fn : di.ctor) (v : option (initializer.t di.ctor))
    (b : bool) (l : list (entity_GRPCClient * context_Context)) :
  di.stable (λ s, di.initer s = v ∧ di.initerOnce s = b
                  ∧ record.closes (di.trace s) = l) (di.call fn).
Proof. destruct fn; keeps. Qed.

(** What [init] leaves of its receiver, whether it returns or panics. *)
Lemma init_receiver (i i1 : initializer.t di.ctor) (s s1 : di.State)
    (o : outcome (option multierror.Error)) :
  initializer.init di.call (i, s) = ((i1, s1), o) →
  i1 = initializer.mk (initializer.f i) (initializer.resultCache i) true
  ∧ (initializer.done i = true →
       o = Ret (initializer.resultCache i) ∧ s1 = s)
  ∧ (initializer.done i = false →
       initializer.init_loop di.call (initializer.f i) None s = (s1, o)).
Proof.
  rewrite init_unfold. destruct (initializer.done i) eqn:Hdone.
  - intros [= <- <- <-]. split_and!; try done. destruct i; simpl in *. by subst.
  - destruct (initializer.init_loop di.call (initializer.f i) None s) as [s2 o2].
    by intros [= <- <- <-].
Qed.

(** [initer.init()] at a state where [initer] points to [i]. *)
Lemma on_initer_init (i : initializer.t di.ctor) (s : di.State) :
  di.initer s = Some i →
  ∃ s1 o,
    di.on_initer (initializer.init di.call) s =
      (di.set_initer
         (Some (initializer.mk (initializer.f i) (initializer.resultCache i) true))
         s1, o)
    ∧ (initializer.done i = true →
         o = Ret (initializer.resultCache i) ∧ s1 = s)
    ∧ (initializer.done i = false →
         initializer.init_loop di.call (initializer.f i) None s = (s1, o))
    ∧ di.initerOnce s1 = di.initerOnce s
    ∧ record.closes (di.trace s1) = record.closes (di.trace s).
Proof.
  intros Hi. unfold di.on_initer. rewrite Hi.
  destruct (initializer.init di.call (i, s)) as [[i1 s1] o] eqn:Hinit.
  apply init_receiver in Hinit as (-> & Hdone & Hloop).
  exists s1, o. split_and!; try done.
  - destruct (initializer.done i); [by destruct Hdone as [_ ->]|].
    pose proof (init_loop_keeps (λ s0, di.initerOnce s0 = di.initerOnce s)
                  (initializer.f i) None) as Hkeep.
    specialize (Hkeep (λ fn s0 H0,
      proj1 (proj2 (call_keeps_orchestrator fn (di.initer s0) _
                      (record.closes (di.trace s0)) s0
                      (conj eq_refl (conj H0 eq_refl)))))).
    specialize (Hkeep s eq_refl). by rewrite (Hloop eq_refl) in Hkeep.
  - destruct (initializer.done i); [by destruct Hdone as [_ ->]|].
    pose proof (init_loop_keeps
                  (λ s0, record.closes (di.trace s0) = record.closes (di.trace s))
                  (initializer.f i) None (λ fn, call_keeps_closes fn _)) as Hkeep.
    specialize (Hkeep s eq_refl). by rewrite (Hloop eq_refl) in Hkeep.
Qed.

Lemma closed_once_initDependencies (cfg : config.Config) (in_ : io_Reader) :
  di.stable record.closed_once (di.initDependencies cfg in_).
Proof.
  intros s (Hcache & Hset & Hclosed).
  unfold di.initDependencies.
  set (reg := Once_Do _ _ _ _). unfold mbind at 1, M_bind at 1.
  (* the registration *)
  assert (∃ s0 i, reg s = (s0, Ret ()) ∧ di.initer s0 = Some i
            ∧ initializer.resultCache i = None
            ∧ di.initerOnce s0 = true
            ∧ di.trace s0 = di.trace s
            ∧ (initializer.done i = false → record.closes (di.trace s) = []))
    as (s0 & i & -> & Hi & Hci & Honce0 & Htr0 & Hundone).
  { unfold reg, Once_Do. destruct (di.initerOnce s) eqn:Honce.
    - destruct Hset as [i Hi]. exists s, i. split_and!; eauto.
      intros Hnot. destruct Hclosed as [|(_ & i' & Hi' & Hd')]; [done|].
      congruence.
    - unfold modify. simpl. eexists _, _. split; [done|].
      destruct s; simpl in *. subst. split_and!; eauto; try done.
      intros _. by destruct Hclosed as [|(_ & i' & Hi' & _)]. }
  (* the run *)
  destruct (on_initer_init i s0 Hi) as (s1 & o & Hrun & Hdone & Hloop & Honce1 & Hcl1).
  unfold mbind at 1, M_bind at 1. rewrite Hrun.
  rewrite Htr0 in Hcl1. rewrite Honce0 in Honce1.
  set (i1 := initializer.mk _ _ true) in *.
  assert (initializer.done i1 = true ∧ initializer.resultCache i1 = None)
    as [Hd1 Hc1] by done.
  clearbody i1.
  set (s2 := di.set_initer (Some i1) s1).
  assert (di.initer s2 = Some i1 ∧ di.initerOnce s2 = true
          ∧ di.trace s2 = di.trace s1 ∧ di.gRPCClient s2 = di.gRPCClient s1)
    as (Hi2 & Honce2 & Htr2 & Hcl2) by (by destruct s1).
  clearbody s2.
  assert (record.closed_once s2) as Hs2.
  { unfold record.closed_once. split_and!.
    - intros i' Hi'. congruence.
    - rewrite Honce2. by eexists.
    - rewrite Htr2, Hcl1.
      destruct Hclosed as [|(Hlen & _)]; [by left|]. right. split; [done|].
      by exists i1. }
  destruct o as [[err|]|]; [|exact Hs2..].
  assert (initializer.done i = false) as Hd.
  { destruct (initializer.done i) eqn:Hd; [|done].
    destruct (Hdone eq_refl) as [Ho _]. congruence. }
  unfold mbind, M_bind, gets. simpl.
  destruct (di.gRPCClient s2) as [c|] eqn:Hc; [|exact Hs2].
  unfold di.log, modify, record.closed_once. simpl.
  split_and!.
  - intros i'. destruct s2; simpl in *. congruence.
  - destruct s2; simpl in *. subst. by eexists.
  - right. destruct s2; simpl in *. rewrite closes_snoc_close.
    rewrite Htr2, Hcl1, (Hundone Hd). split; [done|]. by exists i1.
Qed.

Lemma exec_closed_once (o : record.op) (s : di.State) :
  record.closed_once s → record.closed_once (record.exec o s).
Proof.
  destruct o; simpl; try apply closed_once_initDependencies;
    intros (Hcache & Hset & Hclosed);
    match goal with
    | |- record.closed_once (?f s).1 =>
        assert (di.stable (λ s1, di.initer s1 = di.initer s
                                 ∧ di.initerOnce s1 = di.initerOnce s
                                 ∧ record.closes (di.trace s1) =
                                     record.closes (di.trace s)) f) as K by keeps;
        destruct (K s (conj eq_refl (conj eq_refl eq_refl))) as (K1 & K2 & K3)
    end;
    unfold record.closed_once; rewrite K1, K2, K3; done.
Qed.

End Invariants.

(** ** Sequences of calls *)

Section Sequences.
Context `{Collaborators}.

Lemma after_snoc (ops : list record.op) (o : record.op) :
  record.after (ops ++ [o]) = record.exec o (record.after ops).
Proof. unfold record.after. by rewrite foldl_app. Qed.

Lemma after_ind (P : di.State → Prop) :
  P di.fresh →
  (∀ o s, P s → P (record.exec o s)) →
  ∀ ops, P (record.after ops).
Proof.
  intros Hfresh Hexec ops. induction ops as [|o ops IH] using rev_ind; [done|].
  rewrite after_snoc. by apply Hexec.
Qed.

Lemma after_marked (ops : list record.op) (r : di.registry) :
  record.marked r (record.after ops).
Proof.
  apply (after_ind (record.marked r)); [by destruct r|].
  intros o s. apply exec_marked.
Qed.

Lemma after_closed_once (ops : list record.op) :
  record.closed_once (record.after ops).
Proof.
  apply (after_ind record.closed_once).
  - split_and!; [done|done|by left].
  - intros o s. apply exec_closed_once.
Qed.

Lemma after_client_inv (ops : list record.op) :
  record.client_inv (record.after ops).
Proof.
  apply (after_ind record.client_inv).
  - by intros [? [=]].
  - intros o s. apply exec_client_inv.
Qed.

(** X16. Whatever functions of the package are called, in whatever order
    and with whatever arguments, also after calls that panicked: the
    constructor closure of each registry was entered once if the [Once] of
    the registry is marked, and never otherwise. No closure is entered a
    second time. *)
Theorem constructor_entered_at_most_once (ops : list record.op) (r : di.registry) :
  record.constructions r (di.trace (record.after ops)) =
    (if record.once r (record.after ops) then 1 else 0)
  ∧ record.constructions r (di.trace (record.after ops)) ≤ 1.
Proof.
  pose proof (after_marked ops r) as Hmarked. unfold record.marked in Hmarked.
  split; [done|]. rewrite Hmarked. case_match; lia.
Qed.

(** X18. Over any sequence of calls the package closes the client at most
    once, and only from an orchestrator that has run: a later
    [initDependencies] never closes again. *)
Theorem client_closed_at_most_once (ops : list record.op) :
  length (record.closes (di.trace (record.after ops))) ≤ 1
  ∧ (length (record.closes (di.trace (record.after ops))) = 1 →
       ∃ i, di.initer (record.after ops) = Some i
            ∧ initializer.done i = true).
Proof.
  destruct (after_closed_once ops) as (_ & _ & [Hnone|[Hone Hdone]]).
  - rewrite Hnone. simpl. split; [lia|]. done.
  - rewrite Hone. split; [lia|]. done.
Qed.

(** The registration at the head of [initDependencies]. *)
Lemma initDependencies_registers (cfg : config.Config) (in_ : io_Reader)
    (s : di.State) :
  (di.initerOnce s = true → is_Some (di.initer s)) →
  ∃ s0 i,
    Once_Do di.initerOnce di.set_initerOnce ()
      (modify (di.set_initer (Some (di.registered_initer cfg in_)))) s =
      (s0, Ret ())
    ∧ di.initer s0 = Some i
    ∧ di.initerOnce s0 = true.
Proof.
  intros Hset. unfold Once_Do. destruct (di.initerOnce s) eqn:Honce.
  - destruct (Hset eq_refl) as [i Hi]. by exists s, i.
  - unfold modify. simpl. eexists _, _. split; [done|]. by destruct s.
Qed.

(** What a call of [initDependencies] leaves of the orchestrator, whether
    it returns or panics. *)
Lemma initDependencies_left (cfg : config.Config) (in_ : io_Reader)
    (s s' : di.State) (o : outcome (option multierror.Error)) :
  (di.initerOnce s = true → is_Some (di.initer s)) →
  di.initDependencies cfg in_ s = (s', o) →
  ∃ i1, di.initer s' = Some i1 ∧ initializer.done i1 = true
        ∧ di.initerOnce s' = true
        ∧ (∀ err, o = Ret (Some err) →
             ∃ c tr, di.gRPCClient s' = Some c
                     ∧ di.trace s' = tr ++ [di.EvClose c context_Background]).
Proof.
  intros Hset. unfold di.initDependencies.
  unfold mbind at 1, M_bind at 1.
  destruct (initDependencies_registers cfg in_ s Hset) as (s0 & i & -> & Hi & Honce0).
  destruct (on_initer_init i s0 Hi) as (s1 & o1 & Hrun & _ & _ & Honce1 & _).
  unfold mbind at 1, M_bind at 1. rewrite Hrun. rewrite Honce0 in Honce1.
  set (i1 := initializer.mk _ _ true).
  assert (initializer.done i1 = true) as Hd1 by done. clearbody i1.
  destruct o1 as [[err|]|]; simpl.
  - unfold mbind, M_bind, modify, gets, di.log. simpl.
    destruct (di.gRPCClient s1) as [c|] eqn:Hc;
      intros [= <- <-]; exists i1; destruct s1; simpl in *;
      split_and!; try done.
    intros err' _. exists c. eexists. split; [done|reflexivity].
  - intros [= <- <-]. exists i1. destruct s1; simpl in *. split_and!; done.
  - intros [= <- <-]. exists i1. destruct s1; simpl in *. split_and!; done.
Qed.

(** An orchestrator that is done, with its cache field unset. *)
Lemma initDependencies_done (cfg : config.Config) (in_ : io_Reader)
    (s : di.State) (i : initializer.t di.ctor) :
  di.initer s = Some i → di.initerOnce s = true →
  initializer.done i = true → initializer.resultCache i = None →
  di.initDependencies cfg in_ s = (s, Ret None).
Proof.
  intros Hi Honce Hdone Hcache.
  unfold di.initDependencies, di.on_initer, Once_Do, mbind, M_bind.
  rewrite Honce. simpl. rewrite Hi, init_unfold, Hdone, Hcache. simpl.
  destruct s; simpl in *. by subst.
Qed.

Lemma after_registered (ops : list record.op) :
  di.initerOnce (record.after ops) = true → is_Some (di.initer (record.after ops)).
Proof.
  intros Honce. destruct (after_closed_once ops) as (_ & Hset & _).
  by rewrite Honce in Hset.
Qed.

(** X14. Once [initDependencies] has been called, every later call returns
    nil and changes nothing, whatever configuration and reader it is given
    and whatever the earlier call did: returned nil, returned an aggregate,
    or panicked (in a constructor, or on closing a nil client) with the
    caller recovering. No constructor runs, nothing is closed, and an error
    of the earlier call is not reported again. *)
Theorem initDependencies_later_call_noop (ops : list record.op)
    (cfg cfg' : config.Config) (in_ in' : io_Reader) :
  di.initDependencies cfg' in'
    (di.initDependencies cfg in_ (record.after ops)).1 =
  ((di.initDependencies cfg in_ (record.after ops)).1, Ret None).
Proof.
  destruct (di.initDependencies cfg in_ (record.after ops)) as [s' o] eqn:Hrun.
  destruct (initDependencies_left _ _ _ _ _ (after_registered ops) Hrun)
    as (i1 & Hi1 & Hd1 & Honce & _).
  pose proof (closed_once_initDependencies cfg in_ _ (after_closed_once ops))
    as (Hcache & _).
  rewrite Hrun in Hcache. simpl in *.
  by apply (initDependencies_done cfg' in' s' i1); [| | |apply Hcache].
Qed.

(** X15. After an [initDependencies] that failed, the client it closed is
    the one [GRPCClient] goes on returning, with a nil error: the registry
    does not learn that its client was closed. *)
Theorem closed_client_still_returned (ops : list record.op)
    (cfg cfg' : config.Config) (in_ : io_Reader) (s' : di.State)
    (err : multierror.Error) :
  di.initDependencies cfg in_ (record.after ops) = (s', Ret (Some err)) →
  ∃ c,
    record.closes (di.trace s') = [(c, context_Background)]
    ∧ di.GRPCClient cfg' s' = (s', Ret (Some c, None)).
Proof.
  intros Hrun.
  destruct (initDependencies_left _ _ _ _ _ (after_registered ops) Hrun)
    as (_ & _ & _ & _ & Hclosed).
  destruct (Hclosed err eq_refl) as (c & tr & Hc & Htrace).
  pose proof (closed_once_initDependencies cfg in_ _ (after_closed_once ops))
    as (_ & _ & Hcl).
  pose proof (exec_client_inv (record.call_initDependencies cfg in_) _
                (after_client_inv ops)) as Hinv.
  simpl in Hcl, Hinv. rewrite Hrun in Hcl, Hinv. simpl in Hcl, Hinv.
  exists c. split.
  - rewrite Htrace, closes_snoc_close in Hcl |- *.
    destruct (record.closes tr) as [|x l]; [done|].
    destruct Hcl as [Hcl|[Hcl _]]; [done|].
    rewrite length_app in Hcl. simpl in Hcl. lia.
  - unfold di.GRPCClient, mbind, M_bind.
    rewrite initGRPCClient_again by (apply Hinv; by rewrite Hc).
    unfold gets. simpl. by rewrite Hc.
Qed.

End Sequences.

(** ** The first [initDependencies], in general *)

Section FirstCall.
Context `{Collaborators}.

(** The environment constructor either fails on the proto paths or the
    proto files, or it asks for the client. *)
Lemma initEnv_early_or_client (cfg : config.Config) (s : di.State) :
  di.envOnce s = false →
  (∃ e1,
     (di.resolveProtoPaths cfg = Err e1
      ∨ ∃ paths, di.resolveProtoPaths cfg = Ok paths
                 ∧ protobuf_ParseFile (di.resolveProtoFiles cfg) paths = Err e1)
     ∧ (di.initEnv cfg s).2 = Ret (Some e1))
  ∨ di.gRPCClientOnce (di.initEnv cfg s).1 = true.
Proof.
  intros Honce. unfold di.initEnv, Once_Do. rewrite Honce.
  unfold di.log, mbind, M_bind. simpl.
  set (sl := di.set_trace _ s).
  destruct (di.resolveProtoPaths cfg) as [paths|err]; simpl; [|left; eauto].
  destruct (protobuf_ParseFile _ paths) as [desc|err] eqn:Hparse; simpl;
    [|left; eauto 6].
  right.
  pose proof (initGRPCClient_marks cfg sl) as Hmark.
  rewrite (surjective_pairing (di.initGRPCClient cfg sl)) in Hmark.
  specialize (Hmark _ _ eq_refl). rewrite <- GRPCClient_state in Hmark.
  destruct (di.GRPCClient cfg sl) as [sg [[g [err|]]|]]; simpl in *;
    [by destruct sg| |by destruct sg].
  assert (di.stable (λ s0, di.gRPCClientOnce s0 = true)
            (di.initEnv_select cfg desc g)) as Hkeep by frame.
  specialize (Hkeep sg Hmark).
  destruct (di.initEnv_select cfg desc g sg) as [s1 o]. simpl in *.
  by destruct s1.
Qed.

(** The selection part returns nil only with an environment in place. *)
Lemma initEnv_select_builds (cfg : config.Config) (desc : protobuf_FileDesc)
    (g : option entity_GRPCClient) (s s1 : di.State) :
  di.initEnv_select cfg desc g s = (s1, Ret None) →
  is_Some (di.env s1) ∧ is_Some g.
Proof.
  unfold di.initEnv_select, di.env_call, mbind, M_bind, modify, gets, panic,
    mret, M_ret.
  intros Hrun. destruct s.
  repeat (case_match; simplify_eq/=); eauto.
Qed.

(** An environment constructor that returns nil has built the environment
    and has been handed a client. *)
Lemma initEnv_success_built (cfg : config.Config) (s : di.State) :
  di.envOnce s = false →
  (di.initEnv cfg s).2 = Ret None →
  is_Some (di.env (di.initEnv cfg s).1)
  ∧ is_Some (di.gRPCClient (di.initEnv cfg s).1).
Proof.
  intros Honce. unfold di.initEnv, Once_Do. rewrite Honce.
  unfold di.log, mbind, M_bind. simpl.
  set (sl := di.set_trace _ s).
  destruct (di.resolveProtoPaths cfg) as [paths|err]; simpl; [|done].
  destruct (protobuf_ParseFile _ paths) as [desc|err]; simpl; [|done].
  destruct (di.GRPCClient cfg sl) as [sg [[g [err|]]|]] eqn:Hg; simpl;
    [done| |done].
  apply GRPCClient_returned in Hg as [_ Hg]. specialize (Hg eq_refl).
  injection Hg as Hg.
  destruct (di.initEnv_select cfg desc g sg) as [s1 o] eqn:Hsel. simpl.
  intros ->. apply initEnv_select_builds in Hsel as Hbuilt.
  destruct Hbuilt as [Henv [c Hc]]. rewrite Hc in Hg, Hsel. symmetry in Hg.
  assert (di.stable (λ s0, di.gRPCClient s0 = Some c)
            (di.initEnv_select cfg desc (Some c))) as Hkeep by frame.
  apply (stable_at _ _ _ _ _ Hkeep Hsel) in Hg.
  destruct s1; simpl in *. split; [done|]. by eexists.
Qed.

Lemma runs_keep (P : di.State → Prop) (fs : list di.ctor) (s s' : di.State)
    (outs : list (option error)) :
  (∀ fn, di.stable P (di.call fn)) →
  initializer.runs_in_order di.call fs s outs s' →
  P s → P s'.
Proof.
  intros Hcall. induction 1 as [|fn fs s s1 s2 o os Hrun _ IH]; [done|].
  intros HP. apply IH. by apply (stable_at _ _ _ _ _ (Hcall fn) Hrun).
Qed.

(** A registered function leaves its registry marked. *)
Lemma call_marks (fn : di.ctor) (s : di.State) :
  record.once (record.registry_of fn) (di.call fn s).1 = true.
Proof.
  destruct fn; simpl;
    unfold di.initJSONFileInputter, di.initPromptInputter, di.initGRPCClient,
      di.initEnv, di.initJSONCLIPresenter, di.initDynamicBuilder;
    unfold mbind at 1, M_bind at 1;
    match goal with
    | |- context [Once_Do ?d ?sd ?z ?b s] =>
        pose proof (Once_Do_marks d sd z b s) as Hmark;
        destruct (Once_Do d sd z b s) as [s1 o];
        specialize (Hmark s1 o (λ s0, ltac:(by destruct s0)) eq_refl)
    end;
    try (destruct o as [[]|]); done.
Qed.

Lemma call_keeps_mark (r : di.registry) (fn : di.ctor) :
  di.stable (λ s, record.once r s = true) (di.call fn).
Proof. destruct r, fn; keeps. Qed.

Lemma runs_mark (r : di.registry) (fs : list di.ctor) (s s' : di.State)
    (outs : list (option error)) :
  initializer.runs_in_order di.call fs s outs s' →
  (∃ fn, fn ∈ fs ∧ record.registry_of fn = r) →
  record.once r s' = true.
Proof.
  induction 1 as [|fn fs s s1 s2 o os Hrun Hruns IH]; intros (fn' & Hin & Hr).
  - by apply elem_of_nil in Hin.
  - apply elem_of_cons in Hin as [->|Hin]; [|by eauto].
    apply (runs_keep _ _ _ _ _ (call_keeps_mark r) Hruns).
    pose proof (call_marks fn s) as Hmark. by rewrite Hrun, Hr in Hmark.
Qed.

(** After the six registered functions every registry is marked. *)
Lemma runs_mark_all (cfg : config.Config) (in_ : io_Reader) (s s' : di.State)
    (outs : list (option error)) (r : di.registry) :
  initializer.runs_in_order di.call (di.registered cfg in_) s outs s' →
  record.once r s' = true.
Proof.
  intros Hruns. apply (runs_mark r _ _ _ _ Hruns). unfold di.registered.
  destruct r;
    [ exists (di.fn_initEnv cfg) | exists di.fn_initJSONCLIPresenter
    | exists (di.fn_initJSONFileInputter in_)
    | exists (di.fn_initPromptInputter cfg) | exists (di.fn_initGRPCClient cfg)
    | exists di.fn_initDynamicBuilder ];
    (split; [|done]); rewrite !elem_of_cons; naive_solver.
Qed.

End FirstCall.

Section FirstCallFacts.
Context `{Collaborators}.

(** The first [init] of the registered list, whatever the environment
    constructor returns. *)
Lemma first_init_shape (cfg : config.Config) (in_ : io_Reader) (eE : option error) :
  (di.initEnv cfg di.fresh).2 = Ret eE →
  ∃ s1 eC,
    initializer.runs_in_order di.call (di.registered cfg in_) di.fresh
      [None; eE; eC; None; None; None] s1
    ∧ initializer.init di.call (di.registered_initer cfg in_, di.fresh) =
        ((initializer.mk (di.registered cfg in_) None true, s1),
         Ret (initializer.aggregate (initializer.errors_of [eE; eC])))
    ∧ (∀ e2, eC = Some e2 →
         (di.initGRPCClient cfg di.fresh).2 = Ret (Some e2)
         ∧ ∃ e1, eE = Some e1
             ∧ (di.resolveProtoPaths cfg = Err e1
                ∨ ∃ paths, di.resolveProtoPaths cfg = Ok paths
                    ∧ protobuf_ParseFile (di.resolveProtoFiles cfg) paths = Err e1)).
Proof.
  intros HE.
  destruct (first_run_shape cfg in_ eE HE) as (s1 & eC & Hruns & HeC & _).
  exists s1, eC. split; [done|]. split.
  - by rewrite (init_runs di.call (di.registered_initer cfg in_) _ _ _ eq_refl Hruns).
  - intros e2 ->.
    destruct (di.gRPCClientOnce (di.initEnv cfg di.fresh).1) eqn:Honce; [done|].
    split; [done|].
    destruct (initEnv_early_or_client cfg di.fresh eq_refl)
      as [(e1 & Hearly & Hret)|Hasked]; [|congruence].
    exists e1. split; [congruence|done].
Qed.

(** X12. The aggregate of the first run holds at most two errors. The
    first is what the environment constructor returns: it is reported by
    the constructor of the prompt inputter, which builds the environment,
    and the registered [initEnv] then adds nothing. The second is the error
    of the client constructor, and it is there only when the environment
    failed on the proto paths or the proto files, before it asked for the
    client. *)
Theorem first_run_aggregate (cfg : config.Config) (in_ : io_Reader)
    (eE : option error) :
  (di.initEnv cfg di.fresh).2 = Ret eE →
  ∃ s1 eC,
    initializer.init di.call (di.registered_initer cfg in_, di.fresh) =
      ((initializer.mk (di.registered cfg in_) None true, s1),
       Ret (initializer.aggregate (initializer.errors_of [eE; eC])))
    ∧ (∀ e2, eC = Some e2 →
         (di.initGRPCClient cfg di.fresh).2 = Ret (Some e2)
         ∧ ∃ e1, eE = Some e1
             ∧ (di.resolveProtoPaths cfg = Err e1
                ∨ ∃ paths, di.resolveProtoPaths cfg = Ok paths
                    ∧ protobuf_ParseFile (di.resolveProtoFiles cfg) paths = Err e1)).
Proof.
  intros HE.
  destruct (first_init_shape cfg in_ eE HE) as (s1 & eC & _ & Hinit & Hclient).
  eauto.
Qed.

(** The first [initDependencies] of a process in terms of the first [init]. *)
Lemma initDependencies_first_outcome (cfg : config.Config) (in_ : io_Reader)
    (s1 : di.State) (i1 : initializer.t di.ctor)
    (r : option multierror.Error) :
  initializer.init di.call (di.registered_initer cfg in_, di.fresh) =
    ((i1, s1), Ret r) →
  ∃ s2,
    di.components_view s2 = di.components_view s1
    ∧ di.initDependencies cfg in_ di.fresh =
        match r with
        | None => (s2, Ret None)
        | Some err =>
            match di.gRPCClient s1 with
            | Some c =>
                (di.set_trace (di.trace s2 ++ [di.EvClose c context_Background]) s2,
                 Ret (Some err))
            | None => (s2, Panic)
            end
        end.
Proof.
  intros Hinit. rewrite initDependencies_first.
  destruct (init_from_fresh cfg in_
    (di.set_initerOnce true
       (di.set_initer (Some (di.registered_initer cfg in_)) di.fresh)) eq_refl)
    as (Hout & Hrecv & Hview).
  rewrite Hinit in Hout, Hrecv, Hview.
  destruct (initializer.init _ (_, di.set_initerOnce _ _)) as [[i1' s1'] o'].
  simpl in Hout, Hrecv, Hview. subst o' i1'.
  exists (di.set_initer (Some i1) s1').
  assert (di.gRPCClient s1' = di.gRPCClient s1) as Hc.
  { unfold di.components_view, di.env_view, di.client_view in Hview.
    destruct s1, s1'. simpl in *. by simplify_eq. }
  split.
  - rewrite <- Hview. by destruct s1'.
  - destruct r as [err|]; [|done]. rewrite Hc.
    destruct (di.gRPCClient s1); [|done]. by destruct s1'.
Qed.

Lemma exec_initDependencies (cfg : config.Config) (in_ : io_Reader) (s : di.State) :
  record.exec (record.call_initDependencies cfg in_) s =
    (di.initDependencies cfg in_ s).1.
Proof. reflexivity. Qed.

Lemma components_view_fields (s1 s2 : di.State) :
  di.components_view s2 = di.components_view s1 →
  di.built_view s2 = di.built_view s1 ∧ di.trace s2 = di.trace s1
  ∧ ∀ r, record.once r s2 = record.once r s1.
Proof.
  unfold di.components_view, di.env_view, di.client_view, di.built_view.
  destruct s1, s2. simpl. intros [= -> -> -> -> -> -> -> -> -> -> -> -> ->].
  split_and!; try done; by intros [].
Qed.

(** X13. When the environment can be built, the first [initDependencies]
    returns nil with all six components in place: the environment and the
    client are not nil, the prompt inputter is built over that environment,
    every constructor closure was entered exactly once, and nothing was
    closed. *)
Theorem initDependencies_success (cfg : config.Config) (in_ : io_Reader) :
  (di.initEnv cfg di.fresh).2 = Ret None →
  ∃ s2 e c,
    di.initDependencies cfg in_ di.fresh = (s2, Ret None)
    ∧ di.env s2 = Some e
    ∧ di.gRPCClient s2 = Some c
    ∧ di.promptInputter s2 =
        Some (inputter_NewPrompt (config.PromptFormat (config.Input cfg)) (Some e))
    ∧ di.jsonFileInputter s2 = Some (inputter_NewJSONFile in_)
    ∧ di.jsonCLIPresenter s2 = Some presenter_NewJSONWithIndent
    ∧ di.dynamicBuilder s2 = Some protobuf_NewDynamicBuilder
    ∧ (∀ r, record.constructions r (di.trace s2) = 1)
    ∧ record.closes (di.trace s2) = [].
Proof.
  intros HE.
  destruct (first_run_shape cfg in_ None HE)
    as (s1 & eC & Hruns & HeC & Hfile & Hpres & Hbuilder & Henv & Hprompt
        & Hclient & Honce).
  destruct (initEnv_success_built cfg di.fresh eq_refl HE) as [[e He] [c Hc]].
  pose proof (initEnv_success_ran_client cfg di.fresh eq_refl HE) as Hasked.
  rewrite Hasked in HeC. injection HeC as ->.
  assert (di.gRPCClient s1 = Some c) as Hc1.
  { rewrite Hclient.
    destruct (initEnv_client_view cfg di.fresh eq_refl) as [Hsame|Hbuilt].
    - unfold di.client_view in Hsame. injection Hsame as _ Hsame _ _.
      by rewrite Hasked in Hsame.
    - unfold di.client_view in Hbuilt. injection Hbuilt as Hbuilt _ _ _.
      by rewrite <- Hbuilt. }
  pose proof (init_runs di.call (di.registered_initer cfg in_) _ _ _ eq_refl Hruns)
    as Hinit.
  destruct (initDependencies_first_outcome cfg in_ _ _ _ Hinit) as (s2 & Hview & Hdep).
  simpl in Hdep.
  destruct (components_view_fields _ _ Hview) as (Hb & Htr & Hmarks).
  exists s2, e, c. split; [done|].
  unfold di.built_view in Hb. injection Hb as -> -> -> -> -> ->.
  split_and!; try done.
  - by rewrite Henv.
  - by rewrite Hprompt, He.
  - intros r.
    assert (record.marked r s2) as Hm.
    { assert (record.marked r di.fresh) as Hfresh by (by destruct r).
      apply (exec_marked r (record.call_initDependencies cfg in_)) in Hfresh.
      rewrite exec_initDependencies, Hdep in Hfresh. exact Hfresh. }
    unfold record.marked in Hm.
    by rewrite Hm, Hmarks, (runs_mark_all cfg in_ _ _ _ r Hruns).
  - rewrite Htr. by rewrite (runs_keep_closes _ _ _ _ Hruns).
Qed.

(** A panic of the environment constructor is a panic of the first
    [initDependencies]. *)
Lemma initDependencies_first_panics (cfg : config.Config) (in_ : io_Reader) :
  (di.initEnv cfg di.fresh).2 = Panic →
  (di.initDependencies cfg in_ di.fresh).2 = Panic.
Proof.
  intros HE.
  assert ((initializer.init di.call (di.registered_initer cfg in_, di.fresh)).2
          = Panic) as Hinit.
  { assert ((initializer.init_loop di.call (di.registered cfg in_) None di.fresh).2
            = Panic) as Hloop.
    2: { rewrite init_unfold.
         replace (initializer.done (di.registered_initer cfg in_)) with false
           by reflexivity.
         replace (initializer.f (di.registered_initer cfg in_))
           with (di.registered cfg in_) by reflexivity.
         by destruct (initializer.init_loop _ _ _ _). }
    simpl. unfold mbind at 1, M_bind at 1.
    set (sA := (di.initJSONFileInputter in_ di.fresh).1).
    replace (di.initJSONFileInputter in_ di.fresh) with (sA, Ret (None : option error))
      by reflexivity.
    unfold mbind at 1, M_bind at 1.
    rewrite initPromptInputter_first by done.
    set (sA' := di.set_trace _ sA).
    destruct (initEnv_determined cfg sA' di.fresh eq_refl) as [Hout _].
    rewrite HE in Hout. rewrite Env_unfold.
    destruct (di.initEnv cfg sA') as [sE oE]. simpl in Hout. by subst oE. }
  rewrite initDependencies_first.
  destruct (init_from_fresh cfg in_
    (di.set_initerOnce true
       (di.set_initer (Some (di.registered_initer cfg in_)) di.fresh)) eq_refl)
    as [Hout _].
  rewrite Hinit in Hout.
  destruct (initializer.init _ (_, di.set_initerOnce _ _)) as [[i1' s1'] o'].
  simpl in Hout. by subst o'.
Qed.

(** X19. The first [initDependencies] of a process returns nil exactly
    when the environment constructor, run at process start, returns nil:
    the other five constructors cannot fail on their own, and a failure of
    the client always shows in the environment. *)
Theorem initDependencies_nil_iff_env (cfg : config.Config) (in_ : io_Reader) :
  (di.initDependencies cfg in_ di.fresh).2 = Ret None
  ↔ (di.initEnv cfg di.fresh).2 = Ret None.
Proof.
  split.
  - destruct (di.initEnv cfg di.fresh).2 as [[e|]|] eqn:HE; [|done|].
    + destruct (first_init_shape cfg in_ _ HE) as (s1 & eC & _ & Hinit & _).
      destruct (initDependencies_first_outcome cfg in_ _ _ _ Hinit)
        as (s2 & _ & ->).
      simpl. by destruct (di.gRPCClient s1).
    + by rewrite initDependencies_first_panics.
  - intros HE.
    destruct (first_init_shape cfg in_ _ HE) as (s1 & eC & _ & Hinit & HeC).
    destruct eC as [e2|].
    + by destruct (HeC e2 eq_refl) as (_ & e1 & ? & _).
    + destruct (initDependencies_first_outcome cfg in_ _ _ _ Hinit)
        as (s2 & _ & ->). done.
Qed.

End FirstCallFacts.

(** ** The message builder *)

Section BuilderMore.
Context `{Collaborators}.

Lemma exec_builder_inv (o : record.op) (s : di.State) :
  di.builder_inv s → di.builder_inv (record.exec o s).
Proof.
  revert s. destruct o; simpl;
    match goal with
    | |- ∀ s, _ → di.builder_inv (?f s).1 =>
        assert (di.stable di.builder_inv f) as K; [|exact K]
    end; try (by frame).
  unfold di.initDependencies.
  apply stable_bind; [apply stable_Once; [fields|apply stable_modify; fields]|].
  intros []. apply stable_bind;
    [apply init_keeps; [intros fn; destruct fn; frame|fields]|].
  intros [err|]; frame.
Qed.

(** X20. [DynamicBuilder] cannot fail: after any sequence of calls of the
    package, panicked ones included, it returns the message builder, not
    nil, with a nil error. *)
Theorem DynamicBuilder_always (ops : list record.op) :
  ∃ s1,
    di.DynamicBuilder (record.after ops) =
      (s1, Ret (Some protobuf_NewDynamicBuilder, None))
    ∧ di.dynamicBuilderOnce s1 = true.
Proof.
  assert (di.builder_inv (record.after ops)) as Hinv.
  { apply (after_ind di.builder_inv); [done|]. intros o s. apply exec_builder_inv. }
  destruct (initDynamicBuilder_builds _ Hinv) as (s1 & Hrun & Hb).
  exists s1. unfold di.DynamicBuilder, mbind, M_bind. rewrite Hrun.
  unfold gets. simpl. rewrite Hb. split; [done|].
  unfold di.initDynamicBuilder, mbind, M_bind in Hrun.
  destruct (Once_Do _ _ _ _ (record.after ops)) as [s1' [[]|]] eqn:Honce; [|done].
  apply Once_Do_marks in Honce; [|done]. by injection Hrun as <-.
Qed.

End BuilderMore.

(** X14 at work after a panic in a constructor. The dial fails in an
    early [GRPCClient]; the first [initDependencies] then panics in the
    constructor of the prompt inputter, which asks the environment for a
    client that is nil. The flag [done] is set all the same: the next call
    returns nil and builds nothing, so the presenter and the message builder
    stay nil. *)
Lemma initDependencies_after_constructor_panic :
  let s0 :=
    (di.GRPCClient (H := sample.world sample.dial_down) sample.cfg di.fresh).1 in
  let first :=
    di.initDependencies (H := sample.world sample.dial_down) sample.cfg 3 s0 in
  let second :=
    di.initDependencies (H := sample.world sample.dial_down) sample.cfg 4 first.1 in
  first.2 = Panic
  ∧ (initializer.done <$> di.initer first.1) = Some true
  ∧ second = (first.1, Ret None)
  ∧ di.jsonCLIPresenter second.1 = None
  ∧ di.dynamicBuilder second.1 = None.
Proof. split_and!; vm_compute; reflexivity. Qed.

Lemma closed_client_still_returned_witness :
  ∃ c,
    record.closes (H := sample.world sample.bad_proto)
      (di.trace
         (di.initDependencies (H := sample.world sample.bad_proto) sample.cfg 3
            di.fresh).1) = [(c, ())]
    ∧ di.GRPCClient (H := sample.world sample.bad_proto) fixtures.web_cfg
        (di.initDependencies (H := sample.world sample.bad_proto) sample.cfg 3
           di.fresh).1 =
      ((di.initDependencies (H := sample.world sample.bad_proto) sample.cfg 3
          di.fresh).1,
       Ret (Some c, None)).
Proof.
  apply (@closed_client_still_returned (sample.world sample.bad_proto) []
    sample.cfg fixtures.web_cfg 3 _ [sample.parse_file_error]).
  vm_compute. reflexivity.
Defined.

Lemma first_run_aggregate_witness :
  ∃ s1 eC,
    initializer.init (di.call (H := sample.world fixtures.both_down))
      (di.registered_initer (H := sample.world fixtures.both_down) sample.cfg 3,
       di.fresh) =
      ((initializer.mk
          (di.registered (H := sample.world fixtures.both_down) sample.cfg 3)
          None true, s1),
       Ret (initializer.aggregate
              (initializer.errors_of [Some sample.parse_file_error; eC])))
    ∧ (∀ e2, eC = Some e2 →
         (di.initGRPCClient (H := sample.world fixtures.both_down) sample.cfg
            di.fresh).2 = Ret (Some e2)
         ∧ ∃ e1, Some sample.parse_file_error = Some e1
             ∧ (di.resolveProtoPaths (H := sample.world fixtures.both_down)
                  sample.cfg = Err e1
                ∨ ∃ paths,
                    di.resolveProtoPaths (H := sample.world fixtures.both_down)
                      sample.cfg = Ok paths
                    ∧ protobuf_ParseFile (Collaborators := sample.world fixtures.both_down)
                        (di.resolveProtoFiles sample.cfg) paths = Err e1)).
Proof.
  apply (@first_run_aggregate (sample.world fixtures.both_down) sample.cfg 3
    (Some sample.parse_file_error)).
  vm_compute. reflexivity.
Defined.

Lemma initDependencies_success_witness :
  ∃ s2 e c,
    di.initDependencies (H := sample.world sample.all_fine) sample.cfg 3 di.fresh =
      (s2, Ret None)
    ∧ di.env s2 = Some e
    ∧ di.gRPCClient s2 = Some c
    ∧ di.promptInputter s2 = Some ("{name}> ", Some e)
    ∧ di.jsonFileInputter s2 = Some 3
    ∧ di.jsonCLIPresenter s2 = Some ()
    ∧ di.dynamicBuilder s2 = Some ()
    ∧ (∀ r, record.constructions (H := sample.world sample.all_fine) r
              (di.trace s2) = 1)
    ∧ record.closes (H := sample.world sample.all_fine) (di.trace s2) = [].
Proof.
  apply (@initDependencies_success (sample.world sample.all_fine) sample.cfg 3).
  vm_compute. reflexivity.
Defined.
